(** * siren-nav: the step-reduction engine, embedded in Rocq

    A shallow embedding of [src/steps.ts] (the steps and the two reducers),
    of [normalizeUrl] from the utilities module, and of the second
    definition of the header steps in [src/steps/build.ts].

    JavaScript values are modelled as follows.
    - A string is a [string]; [a + b] on strings is [a +:+ b].
    - [T | undefined] and [T | null] are [option T]; a condition on such a
      value is its JavaScript truthiness ([truthy]: the empty string is
      falsy as well).
    - An object that the code copies, shares or updates ([Config], the
      header object, the [Cache]) lives in a store ([World]) and is held
      by reference, so that aliasing and mutation are visible.
    - [async] functions, promises and [throw] are computations in the
      monad [M]: a function of the world that returns an [outcome] (a
      value or a thrown exception) and the world it leaves behind.
      [await p] is [p >>= _]: the code never starts two computations
      before awaiting the first.
    - Logging ([debug], [console.error]) is not modelled. *)

From Stdlib Require Import String List Arith Lia.
From stdpp Require Import base option list gmap strings.

Set Default Proof Using "Type".
Local Open Scope list_scope.

(** ** Outcomes and the monad of steps *)

(** What JavaScript code throws: [new Error(message)] in the modelled
    sources, or a run-time [TypeError] (reading through a reference that
    denotes no object; typed code never does that). *)
Inductive exn : Type :=
  | Error (message : string)
  | TypeError (message : string).

Inductive outcome (A : Type) : Type :=
  | Ok (a : A)
  | Throw (e : exn).
Arguments Ok {A} a.
Arguments Throw {A} e.

Definition is_ok {A} (o : outcome A) : bool :=
  match o with Ok _ => true | Throw _ => false end.

(** Sequencing of fallible, effect-free code. *)
Definition obind {A B} (o : outcome A) (k : A -> outcome B) : outcome B :=
  match o with
  | Ok a => k a
  | Throw e => Throw e
  end.

Section Monad.
Context {W : Type}.

(** A computation over a world [W]: effects performed before a [throw]
    stay performed. *)
Definition M (A : Type) : Type := W -> outcome A * W.

Definition ret {A} (a : A) : M A := fun w => (Ok a, w).
Definition throw {A} (e : exn) : M A := fun w => (Throw e, w).
Definition lift {A} (o : outcome A) : M A := fun w => (o, w).
Definition reads {A} (f : W -> A) : M A := fun w => (Ok (f w), w).

Definition bind {A B} (m : M A) (k : A -> M B) : M B :=
  fun w =>
    match m w with
    | (Ok a, w') => k a w'
    | (Throw e, w') => (Throw e, w')
    end.
End Monad.
Arguments M W A : clear implicits.

Notation "'let!' x ':=' m 'in' k" := (bind m (fun x => k))
  (at level 10, x name, m at level 100, k at level 200,
   format "'[v' 'let!'  x  ':='  m  'in' '/' k ']'").
Notation "'let!' ' p ':=' m 'in' k" := (bind m (fun p => k))
  (at level 10, p strict pattern, m at level 100, k at level 200,
   format "'[v' 'let!'  ' p  ':='  m  'in' '/' k ']'").

(** ** JavaScript helpers *)

(** Truthiness of a [string | undefined | null]. *)
Definition truthy (v : option string) : option string :=
  match v with
  | Some EmptyString => None
  | Some s => Some s
  | None => None
  end.

(** [a || b] on such values. *)
Definition js_or (a b : option string) : option string :=
  match truthy a with
  | Some s => Some s
  | None => b
  end.

(** [xs.join(sep)]. *)
Fixpoint join (sep : string) (xs : list string) : string :=
  match xs with
  | [] => EmptyString
  | [x] => x
  | x :: rest => x +:+ sep +:+ join sep rest
  end.

(** [xs.indexOf(x) == -1] is [negb (contains xs x)]. *)
Definition contains (xs : list string) (x : string) : bool :=
  bool_decide (x ∈ xs).

(** ** External collaborators: URI.js *)

(** The URI.js library ([urijs] and its [URITemplate]) is an external
    collaborator; its operations are parameters. Those that can throw
    return an [outcome]: [URI(href)] (parsing rejects some host names and
    ports), [uri.absoluteTo(base)] (it throws on a URN such as a
    [mailto:] or [urn:] address, which has no hierarchy to resolve in)
    and the template expansion. [expand s p] stands for
    [URIT(s).expand(p).toString()]. *)
Class UriJs : Type := {
  Uri : Type;
  Params : Type;
  URI : string -> outcome Uri;
  absoluteTo : Uri -> string -> outcome Uri;
  is_relative : Uri -> bool;
  toString : Uri -> string;
  expand : string -> Params -> outcome string;
}.

(** ** Data model *)

(** Siren documents (the [siren-types] declarations): the fields the steps
    read. A sub-entity is an embedded link (a relation and an [href]) or
    an embedded representation (a relation and an entity of its own, with
    its links). *)
Record Link : Type := {
  link_rel : list string;
  link_href : string;
}.

Inductive SubEntity : Type :=
  | EmbeddedLink (l : Link)
  | EmbeddedRepr (rel : list string) (links : option (list Link)).

Record Siren : Type := {
  entities : option (list SubEntity);
  links : option (list Link);
}.

Definition entity_rel (entity : SubEntity) : list string :=
  match entity with
  | EmbeddedLink l => link_rel l
  | EmbeddedRepr rel _ => rel
  end.

(** [entity.hasOwnProperty("href")], with the [href]. *)
Definition entity_href (entity : SubEntity) : option string :=
  match entity with
  | EmbeddedLink l => Some (link_href l)
  | EmbeddedRepr _ _ => None
  end.

(** The type guard [isEmbeddedLink] of [siren-types]. *)
Definition isEmbeddedLink (entity : SubEntity) : bool :=
  match entity with
  | EmbeddedLink _ => true
  | EmbeddedRepr _ _ => false
  end.

(** A response of the transport: [{ data, headers, status }]. The header
    object is kept as the list of its own properties in [Object.keys]
    order. *)
Record ResponseData : Type := {
  data : Siren;
  resp_headers : list (string * string);
  status : nat;
}.

(** [headers[key]] and [Object.keys(headers)] on a response. *)
Fixpoint header_lookup (headers : list (string * string)) (key : string)
    : option string :=
  match headers with
  | [] => None
  | (k, v) :: rest => if String.eqb k key then Some v else header_lookup rest key
  end.

Definition Object_keys (headers : list (string * string)) : list string :=
  map fst headers.

(** References into the store. *)
Definition loc : Type := nat.
Definition Cache : Type := nat.

(** A request configuration object: its [headers] property (a reference
    to a header object, or [undefined]) and its other properties, which
    the steps only copy. *)
Record Config : Type := {
  cfg_headers : option loc;
  cfg_rest : gmap string string;
}.

(** The world: the configuration objects, the header objects, the content
    of every cache, and the state of whatever is outside the process
    (servers, the network). *)
Record World (Ext : Type) : Type := {
  configs : gmap loc Config;
  headerObjs : gmap loc (gmap string string);
  caches : Cache -> gmap string ResponseData;
  outside : Ext;
}.
Arguments configs {Ext} w.
Arguments headerObjs {Ext} w.
Arguments caches {Ext} w.
Arguments outside {Ext} w.

(** Modelled from the spec: the class [NavState] of module [./state],
    which is not among the sources. A state is the current URL, a
    reference to the request configuration and the response last fetched
    for the URL, if any: the properties that the steps read ([cur],
    [config]) and the last argument of the constructor ([value]). *)
Record NavState : Type := {
  cur : string;
  config : loc;
  value : option ResponseData;
}.

(** ** Collaborators that are not among the sources *)

(** - [locate href parameters]: the URL at which the [NavState]
      constructor puts the state, given its first two arguments, or the
      error that it throws (the data model makes a relative URL an
      error).
    - [rebase state href]: the method [state.rebase(href)].
    - [axios_get url config]: [axios.get], used by [getSiren].
    - [getRequest state]: the transport request of module [./requests].
    - [JSON_stringify w states]: [JSON.stringify(states, null, 4)]. *)
Class Platform `{UriJs} : Type := {
  Ext : Type;
  locate : string -> option Params -> outcome string;
  rebase : NavState -> string -> outcome string;
  axios_get : string -> loc -> M (World Ext) ResponseData;
  getRequest : NavState -> M (World Ext) ResponseData;
  JSON_stringify : World Ext -> list NavState -> string;
}.

(** [obj[key] = value] on the properties of a plain object that holds
    strings. The key "__proto__" names the accessor of [Object.prototype]:
    assigning a string through it is ignored and creates no property.
    Any other key becomes an own property with that value. *)
Definition assign (key value : string) (m : gmap string string)
    : gmap string string :=
  if String.eqb key "__proto__" then m else <[key := value]> m.

Section Store.
Context `{Platform}.

Definition Step : Type := NavState -> Cache -> M (World Ext) NavState.
Definition MultiStep : Type :=
  NavState -> Cache -> M (World Ext) (list NavState).

(** [new NavState(href, parameters, config, value)]: the constructor
    keeps the configuration and the response that it is given. *)
Definition NavState_new (href : string) (parameters : option Params)
    (config : loc) (value : option ResponseData) : outcome NavState :=
  obind (locate href parameters)
    (fun u => Ok {| cur := u; config := config; value := value |}).

(** Modelled from the spec: [cache.getOr(url)] of the class [Cache]
    (module [./cache], not among the sources). A cache maps an absolute
    URL to a previously observed response or [undefined]. *)
Definition getOr (cache : Cache) (url : string)
    : M (World Ext) (option ResponseData) :=
  reads (fun w => caches w cache !! url).

Definition set_configs (f : gmap loc Config -> gmap loc Config)
    (w : World Ext) : World Ext :=
  {| configs := f (configs w); headerObjs := headerObjs w;
     caches := caches w; outside := outside w |}.

Definition set_headerObjs
    (f : gmap loc (gmap string string) -> gmap loc (gmap string string))
    (w : World Ext) : World Ext :=
  {| configs := configs w; headerObjs := f (headerObjs w);
     caches := caches w; outside := outside w |}.

(** Reading the configuration object behind a reference. *)
Definition read_config (c : loc) : M (World Ext) Config :=
  fun w =>
    match configs w !! c with
    | Some o => (Ok o, w)
    | None => (Throw (TypeError "not a configuration object"), w)
    end.

(** A new configuration object. *)
Definition alloc_config (o : Config) : M (World Ext) loc :=
  fun w =>
    let c := fresh (dom (configs w)) in
    (Ok c, set_configs <[c := o]> w).

(** [c.headers = h] *)
Definition write_headers_field (c : loc) (h : loc) : M (World Ext) unit :=
  fun w =>
    match configs w !! c with
    | Some o =>
        (Ok tt,
         set_configs <[c := {| cfg_headers := Some h;
                               cfg_rest := cfg_rest o |}]> w)
    | None => (Throw (TypeError "not a configuration object"), w)
    end.

(** Reading the header object behind a reference. *)
Definition read_headers (h : loc) : M (World Ext) (gmap string string) :=
  fun w =>
    match headerObjs w !! h with
    | Some m => (Ok m, w)
    | None => (Throw (TypeError "not a header object"), w)
    end.

(** A new header object with the given properties. *)
Definition alloc_headers (m : gmap string string) : M (World Ext) loc :=
  fun w =>
    let h := fresh (dom (headerObjs w)) in
    (Ok h, set_headerObjs <[h := m]> w).

(** [h[key] = value] *)
Definition write_header (h : loc) (key value : string)
    : M (World Ext) unit :=
  fun w =>
    match headerObjs w !! h with
    | Some m => (Ok tt, set_headerObjs <[h := assign key value m]> w)
    | None => (Throw (TypeError "not a header object"), w)
    end.

(** The properties that [{ ...c.headers }] copies: those of the header
    object, none when [c.headers] is [undefined]. *)
Definition spread_headers (c : loc) : M (World Ext) (gmap string string) :=
  let! o := read_config c in
  match cfg_headers o with
  | Some h => read_headers h
  | None => ret ∅
  end.

(** [let newconfig = { ...c }; if (!newconfig.headers)
    newconfig.headers = {};], the common start of [accept] and [header].
    Returns [newconfig] and [newconfig.headers]. *)
Definition copy_config (c : loc) : M (World Ext) (loc * loc) :=
  let! o := read_config c in
  let! newconfig := alloc_config o in
  match cfg_headers o with
  | Some h => ret (newconfig, h)
  | None =>
      let! h := alloc_headers ∅ in
      let! _ := write_headers_field newconfig h in
      ret (newconfig, h)
  end.
End Store.

(** ** The utilities module *)

Module Utils.
Section Utils.
Context `{Platform}.

(** [Promise.resolve(axios.get(state.cur, state.config))
      .then(resp => resp.data as Siren)] *)
Definition getSiren (state : NavState) : M (World Ext) Siren :=
  let! resp := axios_get (cur state) (config state) in
  ret (data resp).

(** [const uri = URI(href); let url = base ? uri.absoluteTo(base) : uri;]
    The test on [base : string | null] is truthiness. *)
Definition resolved (href : string) (base : option string) : outcome Uri :=
  obind (URI href)
    (fun uri =>
       match truthy base with
       | Some b => absoluteTo uri b
       | None => Ok uri
       end).

Definition normalizeUrl (href : string) (base : option string)
    (parameters : option Params) : outcome string :=
  obind (resolved href base)
    (fun url =>
       if is_relative url then
         Throw (Error ("Normalized URL is relative: " +:+ toString url))
       else
         match parameters with
         | Some p => expand (toString url) p
         | None => Ok (toString url)
         end).

(** Modelled from the spec: [getSelf], which [steps.ts] imports from the
    utilities module and which is not in the source given. It looks up
    the entity's own self-relation link and returns its URL, or nothing
    when there is none. *)
Definition getSelf (entity : SubEntity) : option string :=
  match entity with
  | EmbeddedRepr _ (Some ls) =>
      link_href <$> find (fun l => contains (link_rel l) "self") ls
  | _ => None
  end.
End Utils.
End Utils.

(** ** [src/steps.ts] *)

Module Steps.
Import Utils.
Section Steps.
Context `{Platform}.

Definition applyStep (step : Step) (state : NavState) (cache : Cache)
    : M (World Ext) NavState :=
  step state cache.

(** [cur] is a promise: a computation whose outcome [await] takes. *)
Fixpoint reduce (cur : M (World Ext) NavState) (steps : list Step)
    (cache : Cache) : M (World Ext) NavState :=
  match steps with
  | [] => cur
  | step :: rest =>
      reduce (let! state := cur in applyStep step state cache) rest cache
  end.

(** The loop of [applySteps], from index [i] on; [ret_] is the local
    [ret], replaced by [[...ret, ...results]] in each round. *)
Fixpoint applySteps_loop (step : MultiStep) (states : list NavState)
    (cache : Cache) (ret_ : list NavState)
    : M (World Ext) (list NavState) :=
  match states with
  | [] => ret ret_
  | state :: rest =>
      let! results := step state cache in
      applySteps_loop step rest cache (ret_ ++ results)
  end.

Definition applySteps (step : MultiStep) (states : list NavState)
    (cache : Cache) : M (World Ext) (list NavState) :=
  applySteps_loop step states cache [].

Fixpoint reduceEach (cur : M (World Ext) (list NavState))
    (steps : list MultiStep) (cache : Cache)
    : M (World Ext) (list NavState) :=
  match steps with
  | [] => cur
  | step :: rest =>
      reduceEach (let! states := cur in applySteps step states cache)
        rest cache
  end.

(** [newconfig.headers.hasOwnProperty("Accept")]: the method is looked up
    on the header object itself, so an own property named
    "hasOwnProperty" (a string, as every header value) is what gets
    called, and calling a string throws. *)
Definition hasOwnProperty (props : gmap string string) (key : string)
    : outcome bool :=
  match props !! "hasOwnProperty" with
  | Some _ =>
      Throw (TypeError "newconfig.headers.hasOwnProperty is not a function")
  | None => Ok (bool_decide (is_Some (props !! key)))
  end.

Definition accept (ctype : string) : Step :=
  fun state cache =>
    let! '(newconfig, headers) := copy_config (config state) in
    let! props := read_headers headers in
    let! own := lift (hasOwnProperty props "Accept") in
    let! h :=
      if own then
        (* [cur] is a string here; an absent property would read as
           [undefined] *)
        let cur_ := default "undefined" (props !! "Accept") in
        let! old := spread_headers (config state) in
        alloc_headers (<["Accept" := ctype +:+ ", " +:+ cur_]> old)
      else
        let! old := spread_headers (config state) in
        alloc_headers (<["Accept" := ctype]> old) in
    let! _ := write_headers_field newconfig h in
    let! v := getOr cache (cur state) in
    lift (NavState_new (cur state) None newconfig v).

Definition header (key value : string) : Step :=
  fun state cache =>
    let! '(newconfig, _) := copy_config (config state) in
    let! old := spread_headers (config state) in
    let! h := alloc_headers old in
    let! _ := write_headers_field newconfig h in
    let! _ := write_header h key value in
    let! v := getOr cache (cur state) in
    lift (NavState_new (cur state) None newconfig v).

Definition contentType (ctype : string) : Step :=
  header "Content-Type" ctype.

Definition auth (scheme token : string) : Step :=
  header "Authorization" (scheme +:+ " " +:+ token).

(** [possible.push(new NavState(abs, parameters, state.config,
    cache.getOr(abs)))] for [abs = state.rebase(href)]. *)
Definition push_candidate (href : string) (state : NavState)
    (cache : Cache) (parameters : option Params)
    (possible : list NavState) : M (World Ext) (list NavState) :=
  let! hrefAbs := lift (rebase state href) in
  let! v := getOr cache hrefAbs in
  let! s := lift (NavState_new hrefAbs parameters (config state) v) in
  ret (possible ++ [s]).

(** The callback of the first [forEach]. *)
Definition visit_entity (rel : string) (state : NavState) (cache : Cache)
    (parameters : option Params) (entity : SubEntity)
    (possible : list NavState) : M (World Ext) (list NavState) :=
  if negb (contains (entity_rel entity) rel) then ret possible
  else
    match entity_href entity with
    | Some href => push_candidate href state cache parameters possible
    | None =>
        if negb (isEmbeddedLink entity) then
          match truthy (getSelf entity) with
          | Some self => push_candidate self state cache parameters possible
          | None => ret possible
          end
        else ret possible
    end.

(** The callback of the second [forEach]. *)
Definition visit_link (rel : string) (state : NavState) (cache : Cache)
    (parameters : option Params) (link : Link)
    (possible : list NavState) : M (World Ext) (list NavState) :=
  if negb (contains (link_rel link) rel) then ret possible
  else push_candidate (link_href link) state cache parameters possible.

(** [xs.forEach(visit)] over the local array [possible]. *)
Fixpoint forEach {A} (xs : list A)
    (visit : A -> list NavState -> M (World Ext) (list NavState))
    (possible : list NavState) : M (World Ext) (list NavState) :=
  match xs with
  | [] => ret possible
  | x :: rest =>
      let! possible' := visit x possible in
      forEach rest visit possible'
  end.

Definition findPossible (rel : string) (siren : Siren) (state : NavState)
    (cache : Cache) (parameters : option Params)
    : M (World Ext) (list NavState) :=
  let! possible :=
    forEach (default [] (entities siren))
      (visit_entity rel state cache parameters) [] in
  forEach (default [] (links siren))
    (visit_link rel state cache parameters) possible.

Definition followEach (rel : string) (parameters : option Params)
    : MultiStep :=
  fun state cache =>
    let! siren := getSiren state in
    findPossible rel siren state cache parameters.

Definition followLocation : Step :=
  fun state cache =>
    let! resp := getRequest state in
    let location :=
      js_or (header_lookup (resp_headers resp) "Location")
            (header_lookup (resp_headers resp) "location") in
    match truthy location with
    | None =>
        throw (Error ("No 'Location' header found in '"
                      +:+ join ", " (Object_keys (resp_headers resp))
                      +:+ "'"))
    | Some location =>
        let! locurl := lift (rebase state location) in
        let! v := getOr cache locurl in
        lift (NavState_new locurl None (config state) v)
    end.

Definition follow (rel : string) (parameters : option Params)
    (which : option (list NavState -> M (World Ext) NavState)) : Step :=
  fun state cache =>
    let! siren := getSiren state in
    let! possible := findPossible rel siren state cache parameters in
    if length possible =? 0 then
      throw (Error ("Cannot follow relation '" +:+ rel
                    +:+ "', no links with that relation"))
    else if 1 <? length possible then
      match which with
      | None =>
          let! listing := reads (fun w => JSON_stringify w possible) in
          throw (Error ("Multiple links with relation '" +:+ rel
                        +:+ "' found when only one was expected in "
                        +:+ listing))
      | Some which => which possible
      end
    else
      match possible with
      | s :: _ => ret s
      | [] => throw (TypeError "possible[0] is undefined") (* not reached *)
      end.

Definition toMulti (step : Step) : MultiStep :=
  fun cur cache =>
    let! ns := step cur cache in
    ret [ns].
End Steps.
End Steps.

(** ** [src/steps/build.ts] *)

(** The second definition of the header steps. It is written against
    another [NavState] (a constructor of three arguments and a property
    [currentConfig]) and against [headerConfig] of module [../config];
    neither is among the sources, so both are parameters here. *)
Module Build.
Section Build.
Context `{UriJs}.
Variables (W State Cfg : Type).
Variable cur : State -> string.
Variable currentConfig : State -> Cfg.
Variable NavState_new : string -> option Params -> Cfg -> M W State.
Variable headerConfig : string -> string -> Cfg -> M W Cfg.

Definition Step : Type := State -> M W State.

Definition header (key value : string) : Step :=
  fun state =>
    let! c := headerConfig key value (currentConfig state) in
    NavState_new (cur state) None c.

Definition accept (ctype : string) : Step :=
  header "Accept" ctype.

Definition contentType (ctype : string) : Step :=
  header "Content-Type" ctype.

Definition auth (scheme token : string) : Step :=
  header "Authorization" (scheme +:+ " " +:+ token).
End Build.
End Build.

(** Modelled from the spec: [headerConfig] of module [../config], which
    [build.ts] imports and which is not among the sources. The step
    [header(key, value)] is specified to produce a state whose
    configuration has [key] set to [value] in its header mapping, all
    other configuration fields preserved, on a copy; in [build.ts] that
    configuration is [headerConfig(key, value)(state.currentConfig)]. *)
Record BuildConfig : Type := {
  bc_headers : gmap string string;
  bc_rest : gmap string string;
}.

Definition headerConfig (key value : string) (c : BuildConfig)
    : BuildConfig :=
  {| bc_headers := <[key := value]> (bc_headers c); bc_rest := bc_rest c |}.

(** ** Observations on states and worlds *)

Section Observations.
Context {Ext : Type}.

(** The state's configuration is an object of the world, and so is its
    header object when it has one: what the types of the source
    guarantee. *)
Definition state_ok (w : World Ext) (s : NavState) : Prop :=
  exists o, configs w !! config s = Some o /\
    forall h, cfg_headers o = Some h -> is_Some (headerObjs w !! h).

(** The header mapping that a state's configuration holds (empty when
    the configuration has no header object). *)
Definition headers_of (w : World Ext) (s : NavState) : gmap string string :=
  match configs w !! config s with
  | Some o =>
      match cfg_headers o with
      | Some h => default ∅ (headerObjs w !! h)
      | None => ∅
      end
  | None => ∅
  end.

(** The other properties of a state's configuration. *)
Definition rest_of (w : World Ext) (s : NavState) : gmap string string :=
  match configs w !! config s with
  | Some o => cfg_rest o
  | None => ∅
  end.

(** The header object of a state's configuration. *)
Definition headers_ref (w : World Ext) (s : NavState) : option loc :=
  o ← configs w !! config s; cfg_headers o.

(** Every object of [w] is an object of [w'], with the same content:
    nothing that existed was mutated. *)
Definition preserved (w w' : World Ext) : Prop :=
  configs w ⊆ configs w' /\ headerObjs w ⊆ headerObjs w' /\
  caches w' = caches w /\ outside w' = outside w.

(** The configuration objects and the header objects of [w] are objects
    of [w'], with the same content. *)
Definition objects_kept (w w' : World Ext) : Prop :=
  configs w ⊆ configs w' /\ headerObjs w ⊆ headerObjs w'.

(** What [accept] and [header] do to the world: [s'] holds a new
    configuration object, which has the other properties of the
    configuration of [state] and a new header object with the
    properties [hs]; the objects that existed are as they were. *)
Definition rebuilt (w w' : World Ext) (state s' : NavState)
    (hs : gmap string string) : Prop :=
  (config s' ∉ dom (configs w)) /\
  exists h', (h' ∉ dom (headerObjs w)) /\
    configs w'
    = <[config s' := {| cfg_headers := Some h';
                        cfg_rest := rest_of w state |}]> (configs w) /\
    headerObjs w ⊆ headerObjs w' /\
    headerObjs w' !! h' = Some hs /\
    caches w' = caches w /\ outside w' = outside w.
End Observations.

(** ** Closed forms to compare the code with *)

Section SpecWords.
Context `{Platform}.

(** The state sits at an absolute, fully resolved URL: the constructor
    of [NavState] accepts it and keeps it (the invariant of the data
    model). *)
Definition positioned (state : NavState) : Prop :=
  locate (cur state) None = Ok (cur state).

(** The two errors of [follow]. *)
Definition not_found (rel : string) : exn :=
  Error ("Cannot follow relation '" +:+ rel
         +:+ "', no links with that relation").

Definition ambiguous (rel : string) (w : World Ext)
    (possible : list NavState) : exn :=
  Error ("Multiple links with relation '" +:+ rel
         +:+ "' found when only one was expected in "
         +:+ JSON_stringify w possible).

(** The sequential reducer, as worded: each step in list order is
    applied to the running state; a failure ends the run. *)
Fixpoint thread (state : NavState) (steps : list Step) (cache : Cache)
    : M (World Ext) NavState :=
  match steps with
  | [] => ret state
  | step :: rest =>
      let! state' := step state cache in
      thread state' rest cache
  end.

(** One wave, as worded: the successors of the first state, then those
    of the second, and so on. *)
Fixpoint wave (step : MultiStep) (states : list NavState) (cache : Cache)
    : M (World Ext) (list NavState) :=
  match states with
  | [] => ret []
  | state :: rest =>
      let! successors := step state cache in
      let! more := wave step rest cache in
      ret (successors ++ more)
  end.

(** The candidate state for one URL of the document. *)
Definition candidate (state : NavState) (cache : Cache)
    (parameters : option Params) (href : string)
    : M (World Ext) NavState :=
  let! hrefAbs := lift (rebase state href) in
  let! v := getOr cache hrefAbs in
  lift (NavState_new hrefAbs parameters (config state) v).

(** The candidate states for a list of URLs, in the order of the list. *)
Fixpoint candidates (state : NavState) (cache : Cache)
    (parameters : option Params) (hrefs : list string)
    : M (World Ext) (list NavState) :=
  match hrefs with
  | [] => ret []
  | href :: rest =>
      let! s := candidate state cache parameters href in
      let! more := candidates state cache parameters rest in
      ret (s :: more)
  end.


(** The URL that a sub-entity contributes for a relation, if any. *)
Definition entity_target (rel : string) (entity : SubEntity)
    : option string :=
  if contains (entity_rel entity) rel then
    match entity_href entity with
    | Some href => Some href
    | None => truthy (Utils.getSelf entity)
    end
  else None.

Definition link_target (rel : string) (link : Link) : option string :=
  if contains (link_rel link) rel then Some (link_href link) else None.

(** Document order: the sub-entities in one pass, then the links. *)
Definition targets (rel : string) (siren : Siren) : list string :=
  omap (entity_target rel) (default [] (entities siren))
  ++ omap (link_target rel) (default [] (links siren)).

(** The three phases of the specification: the embedded links among the
    sub-entities, then the embedded representations among them, then the
    links. *)
Definition three_phase_targets (rel : string) (siren : Siren)
    : list string :=
  omap (entity_target rel)
    (filter (fun e => isEmbeddedLink e = true) (default [] (entities siren)))
  ++ omap (entity_target rel)
    (filter (fun e => isEmbeddedLink e = false) (default [] (entities siren)))
  ++ omap (link_target rel) (default [] (links siren)).
End SpecWords.

(** ** A concrete platform, to run the steps on *)

Module Toy.
(** URLs as strings: absolute when they start with "http://" or
    "mailto:"; resolution prefixes the base, and throws on a "mailto:"
    address as URI.js does on a URN; a template is expanded by appending
    the parameter. *)
Definition uri : UriJs := {|
  Uri := string;
  Params := string;
  URI := fun s => Ok s;
  absoluteTo := fun u b =>
    if String.prefix "mailto:" u then
      Throw (Error "URNs do not have any generally defined hierarchical components")
    else if String.prefix "http://" u then Ok u
    else Ok (b +:+ u);
  is_relative := fun u =>
    negb (String.prefix "http://" u || String.prefix "mailto:" u);
  toString := fun u => u;
  expand := fun s p => Ok (s +:+ p);
|}.

(** The outside world is a table of the responses that the servers
    give. *)
Definition serve (url : string)
    : M (World (gmap string ResponseData)) ResponseData :=
  fun w =>
    match outside w !! url with
    | Some r => (Ok r, w)
    | None => (Throw (Error "Network Error"), w)
    end.

Definition platform : @Platform uri := {|
  Ext := gmap string ResponseData;
  locate := fun href ps => Utils.normalizeUrl (H := uri) href None ps;
  rebase := fun state href =>
    Utils.normalizeUrl (H := uri) href (Some (cur state)) None;
  axios_get := fun url _ => serve url;
  getRequest := fun state => serve (cur state);
  JSON_stringify := fun _ states => "[" +:+ join ", " (map cur states) +:+ "]";
|}.

Definition no_siren : Siren := {| entities := None; links := None |}.

Definition config0 : Config := {| cfg_headers := None; cfg_rest := ∅ |}.

Definition response0 : ResponseData :=
  {| data := no_siren; resp_headers := []; status := 200 |}.

(** A world with one configuration object, no header object, empty
    caches and the given servers. *)
Definition world0 (servers : gmap string ResponseData)
    : World (gmap string ResponseData) :=
  {| configs := {[ 0 := config0 ]}; headerObjs := ∅;
     caches := fun _ => ∅; outside := servers |}.

Definition state0 : NavState :=
  {| cur := "http://api/"; config := 0; value := None |}.

(** A state that carries a response, as a caller may build it. *)
Definition state1 : NavState :=
  {| cur := "http://api/"; config := 0; value := Some response0 |}.

Definition self_link (href : string) : Link :=
  {| link_rel := ["self"]; link_href := href |}.

(** A document whose first sub-entity is an embedded representation and
    whose second is an embedded link, both under the relation "item". *)
Definition doc_repr_then_link : Siren :=
  {| entities := Some [
       EmbeddedRepr ["item"] (Some [self_link "http://api/a"]);
       EmbeddedLink {| link_rel := ["item"]; link_href := "http://api/b" |} ];
     links := Some [ {| link_rel := ["item"]; link_href := "http://api/c" |} ] |}.

Definition item_link (href : string) : Link :=
  {| link_rel := ["item"]; link_href := href |}.

Definition doc_one_link : Siren :=
  {| entities := None; links := Some [item_link "http://api/only"] |}.

Definition respond (doc : Siren) (headers : list (string * string))
    : ResponseData :=
  {| data := doc; resp_headers := headers; status := 200 |}.

(** Servers whose root document has three candidates for "item", one
    candidate, or none. *)
Definition servers_three : gmap string ResponseData :=
  {[ "http://api/" := respond doc_repr_then_link [] ]}.
Definition servers_one : gmap string ResponseData :=
  {[ "http://api/" := respond doc_one_link [] ]}.
Definition servers_none : gmap string ResponseData :=
  {[ "http://api/" := respond no_siren [] ]}.

(** A server that answers with a lower-case location header, and one
    that answers without any. *)
Definition servers_created : gmap string ResponseData :=
  {[ "http://api/" :=
       respond no_siren [("content-length", "0");
                         ("location", "http://api/items/5")] ]}.
Definition servers_plain : gmap string ResponseData :=
  {[ "http://api/" :=
       respond no_siren [("content-length", "0"); ("etag", "x")] ]}.

(** The world in which every cache holds a response for the root. *)
Definition world_cached : World (gmap string ResponseData) :=
  {| configs := {[ 0 := config0 ]}; headerObjs := ∅;
     caches := fun _ => {[ "http://api/" := response0 ]};
     outside := ∅ |}.

Definition at_ (url : string) : NavState :=
  {| cur := url; config := 0; value := None |}.

(** A disambiguator that throws, and a multi-step with one successor. *)
Definition refuse (states : list NavState)
    : M (World (gmap string ResponseData)) NavState :=
  throw (Error "disambiguator called").

Definition last_of (states : list NavState)
    : M (World (gmap string ResponseData)) NavState :=
  ret (List.last states state0).

Definition stay : @MultiStep uri platform :=
  fun state _ => ret [state].
End Toy.

(** ** The body encoder of the utilities module *)

(** [formulateData] looks at the run-time kind of [body], so a body is a
    JavaScript value here. The content of objects and of numbers is left
    open; so is [new URI("").search(body).toString()], the URL-encoded
    query string of an object ([query_string]). *)
Record Action : Type := {
  action_type : option string;
}.

Section FormulateData.
Variables (JsObject Num : Type).
Variable is_zero_or_NaN : Num -> bool.
Variable query_string : JsObject -> string.

Inductive JsValue : Type :=
  | VUndefined
  | VNull
  | VBool (b : bool)
  | VNumber (n : Num)
  | VString (s : string)
  | VFunction
  | VObject (o : JsObject).

(** [!v] *)
Definition falsy (v : JsValue) : bool :=
  match v with
  | VUndefined | VNull => true
  | VBool b => negb b
  | VNumber n => is_zero_or_NaN n
  | VString s => match s with EmptyString => true | _ => false end
  | VFunction | VObject _ => false
  end.

(** [typeof v == "object"] *)
Definition typeof_object (v : JsValue) : bool :=
  match v with
  | VNull | VObject _ => true
  | _ => false
  end.

Definition formulateData (action : Action) (body : JsValue) : JsValue :=
  let type := action_type action in
  if match truthy type with
     | Some t => negb (String.eqb t "application/x-www-form-urlencoded")
     | None => false
     end
  then body
  else if falsy body || negb (typeof_object body) then body
  else
    match body with
    | VObject o => VString (query_string o)
    | _ => body (* not reached *)
    end.
End FormulateData.
Arguments VUndefined {JsObject Num}.
Arguments VNull {JsObject Num}.
Arguments VBool {JsObject Num} b.
Arguments VNumber {JsObject Num} n.
Arguments VString {JsObject Num} s.
Arguments VFunction {JsObject Num}.
Arguments VObject {JsObject Num} o.

(** ** The class [NavResponse] *)

(** The class that follows [steps.ts] in the source given. It is written
    against a [NavState] with a property [root] and against [SirenNav];
    neither is among the sources, so they are parameters, as are the
    cache and [nav.do], which registers a step. The promise [resp] is
    held by its settlement: awaiting it, any number of times, gives that
    outcome and has no effect of its own. *)
Module Response.
Section Response.
Variables (W SirenNav State Root Cfg : Type).
Variable root : State -> Root.
Variable config : State -> Cfg.
Variable NavState_new :
  string -> Root -> Cfg -> option ResponseData -> M W State.
Variable getOr : Cache -> string -> M W (option ResponseData).
Variable nav_do :
  SirenNav -> (State -> Cache -> bool -> M W State) -> SirenNav.

Record NavResponse : Type := {
  resp : outcome ResponseData;
  nav : SirenNav;
}.

Definition create (resp : outcome ResponseData) (nav : SirenNav)
    : NavResponse :=
  {| resp := resp; nav := nav |}.

Definition fromValue (value : Siren) (nav : SirenNav) : NavResponse :=
  {| resp := Ok {| data := value; resp_headers := []; status := 200 |};
     nav := nav |}.

Definition asSiren (this : NavResponse) : M W Siren :=
  let! resp := lift (resp this) in
  ret (data resp).

(** The step that [followLocation] hands to [nav.do]. *)
Definition followLocation_step (this : NavResponse)
    : State -> Cache -> bool -> M W State :=
  fun state cache debug =>
    let! resp := lift (resp this) in
    let location :=
      js_or (header_lookup (resp_headers resp) "Location")
            (header_lookup (resp_headers resp) "location") in
    match truthy location with
    | None =>
        throw (Error ("No 'Location' header found in '"
                      +:+ join ", " (Object_keys (resp_headers resp))
                      +:+ "'"))
    | Some location =>
        let! v := getOr cache location in
        NavState_new location (root state) (config state) v
    end.

Definition followLocation (this : NavResponse) : SirenNav :=
  nav_do (nav this) (followLocation_step this).
End Response.
End Response.

(** ** Pipelines of header steps *)

Section HeaderPipelines.
Context `{Platform}.

(** What [accept ctype] makes of a header mapping. *)
Definition accumulate (ctype : string) (m : gmap string string)
    : gmap string string :=
  <["Accept" := match m !! "Accept" with
                | Some v => ctype +:+ ", " +:+ v
                | None => ctype
                end]> m.

(** A step that, on every well-formed state whose header mapping meets
    [Inv], returns a state at the same URL whose configuration is a new
    object with the header mapping [f] of the former one; [f] keeps
    [Inv]. *)
Definition rewrites_headers (Inv : gmap string string -> Prop)
    (step : Step) (cache : Cache)
    (f : gmap string string -> gmap string string) : Prop :=
  (forall m, Inv m -> Inv (f m))
  /\ forall state (w : World Ext),
       state_ok w state ->
       positioned state ->
       Inv (headers_of w state) ->
       exists s' w',
         step state cache w = (Ok s', w')
         /\ cur s' = cur state
         /\ value s' = caches w cache !! cur state
         /\ rebuilt w w' state s' (f (headers_of w state)).

(** The header object can be asked [hasOwnProperty]: it has no own
    property of that name. *)
Definition can_ask (m : gmap string string) : Prop :=
  m !! "hasOwnProperty" = None.

(** No sub-entity and no link of the document carries the relation. *)
Definition no_match (rel : string) (siren : Siren) : bool :=
  forallb (fun e => negb (contains (entity_rel e) rel))
    (default [] (entities siren))
  && forallb (fun l => negb (contains (link_rel l) rel))
       (default [] (links siren)).

(** The transport does not touch the configuration objects and the
    header objects of the process (it may do anything else). *)
Definition transport_preserves : Prop :=
  forall url c (w : World Ext) r w',
    axios_get url c w = (r, w') -> objects_kept w w'.
End HeaderPipelines.

(** ** More inputs for the concrete platform *)

Module Samples.
Import Toy.

(** A multi-step that fails at one URL and stays put elsewhere. *)
Definition fail_at (url : string) : @MultiStep uri platform :=
  fun state _ =>
    if String.eqb (cur state) url then throw (Error "refused")
    else ret [state].

(** A step that moves to a URL. *)
Definition move_to (url : string) : @Step uri platform :=
  fun state _ =>
    ret {| cur := url; config := config state; value := value state |}.

(** A server that answers with an empty Location header. *)
Definition servers_empty_location : gmap string ResponseData :=
  {[ "http://api/" :=
       respond no_siren [("Location", EmptyString); ("etag", "x")] ]}.




(** A world whose configuration has a header object with an Accept
    header and an own property named "hasOwnProperty", as the step
    [header("hasOwnProperty", "1")] leaves one. *)
Definition world_own_key : World (gmap string ResponseData) :=
  {| configs := {[ 0 := {| cfg_headers := Some 0; cfg_rest := ∅ |} ]};
     headerObjs :=
       {[ 0 := <["Accept" := "application/json"]>
                 {[ "hasOwnProperty" := "1" ]} ]};
     caches := fun _ => ∅; outside := ∅ |}.

(** The state of [build.ts], with a constructor that keeps what it is
    given, and its [accept] over [headerConfig]. *)
Record BuildState : Type := {
  bs_cur : string;
  bs_config : BuildConfig;
}.

Definition build_new (href : string) (parameters : option string)
    (c : BuildConfig) : M unit BuildState :=
  ret {| bs_cur := href; bs_config := c |}.

Definition build_accept (ctype : string) : BuildState -> M unit BuildState :=
  Build.accept (H := uri) unit BuildState BuildConfig bs_cur bs_config
    build_new (fun k v c => ret (headerConfig k v c)) ctype.

Definition build_state (headers : gmap string string) : BuildState :=
  {| bs_cur := "http://api/";
     bs_config := {| bc_headers := headers; bc_rest := ∅ |} |}.

(** Objects as lists of fields, encoded as "k=v" joined by "&". *)
Definition encode_fields (o : list (string * string)) : string :=
  join "&" (map (fun kv => kv.1 +:+ "=" +:+ kv.2) o).

Definition is_zero (n : nat) : bool := Nat.eqb n 0.
End Samples.

(** * Properties *)

(** ** The monad *)

Ltac run := unfold bind, ret, throw, lift, reads in *; simpl in *.

Section MonadFacts.
Context {W : Type}.

Lemma bind_ret_l {A B} (a : A) (k : A -> M W B) w :
  (let! x := ret a in k x) w = k a w.
Proof. reflexivity. Qed.

Lemma bind_ret_r {A} (m : M W A) w :
  (let! x := m in ret x) w = m w.
Proof. run. by destruct (m w) as [[a|e] w']. Qed.

Lemma bind_assoc {A B C} (m : M W A) (k : A -> M W B) (k' : B -> M W C) w :
  (let! y := (let! x := m in k x) in k' y) w
  = (let! x := m in let! y := k x in k' y) w.
Proof. run. by destruct (m w) as [[a|e] w']. Qed.

Lemma bind_ext {A B} (m m' : M W A) (k k' : A -> M W B) w :
  m w = m' w -> (forall a w', k a w' = k' a w') ->
  (let! x := m in k x) w = (let! x := m' in k' x) w.
Proof. intros Hm Hk. run. rewrite Hm. by destruct (m' w) as [[a|e] w']. Qed.

Lemma bind_run {A B} (m : M W A) (k : A -> M W B) w :
  (let! x := m in k x) w
  = match m w with
    | (Ok a, w') => k a w'
    | (Throw e, w') => (Throw e, w')
    end.
Proof. reflexivity. Qed.
End MonadFacts.

(** ** The reducers *)

Section Reducers.
Context `{Platform}.
Import Steps.

Lemma reduce_ext (steps : list Step) cache :
  forall cur cur' : M (World Ext) NavState,
    (forall w, cur w = cur' w) ->
    forall w, reduce cur steps cache w = reduce cur' steps cache w.
Proof.
  induction steps as [|step rest IH]; intros cur cur' E w; simpl.
  - apply E.
  - apply IH. intros w'. apply bind_ext; [apply E | done].
Qed.

Lemma reduce_thread (steps : list Step) cache :
  forall (cur : M (World Ext) NavState) w,
    reduce cur steps cache w
    = (let! state := cur in thread state steps cache) w.
Proof.
  induction steps as [|step rest IH]; intros cur w; simpl.
  - by rewrite bind_ret_r.
  - rewrite IH. apply bind_assoc.
Qed.

Lemma reduce_app (pre post : list Step) cache :
  forall (cur : M (World Ext) NavState) w,
    reduce cur (pre ++ post) cache w
    = match reduce cur pre cache w with
      | (Ok state, w') => reduce (ret state) post cache w'
      | (Throw e, w') => (Throw e, w')
      end.
Proof.
  induction pre as [|step pre IH]; intros cur w; simpl.
  - rewrite reduce_thread, bind_run.
    destruct (cur w) as [[state|e] w']; [|done].
    by rewrite reduce_thread.
  - apply IH.
Qed.

(** C5. [reduce] on the empty list of steps is the identity: it returns
    the promise it was given, hence the initial state unchanged. On any
    list it threads the state through the steps from left to right,
    each step receiving the state that the previous one produced, and
    returns the last state. It stops at the first failure: whatever
    steps follow a run that has failed, the exception and the world are
    those of the failure, and after a run that has succeeded the
    following steps continue from its state. *)
Theorem reduce_left_to_right :
  forall (cur : M (World Ext) NavState) (steps : list Step) (cache : Cache),
    reduce cur [] cache = cur
    /\ (forall state w, reduce (ret state) [] cache w = (Ok state, w))
    /\ (forall w,
          reduce cur steps cache w
          = (let! state := cur in thread state steps cache) w)
    /\ (forall pre post w,
          reduce cur (pre ++ post) cache w
          = match reduce cur pre cache w with
            | (Ok state, w') => reduce (ret state) post cache w'
            | (Throw e, w') => (Throw e, w')
            end).
Proof.
  intros cur steps cache. split; [reflexivity|].
  split; [reflexivity|]. split.
  - apply reduce_thread.
  - intros pre post w. apply reduce_app.
Qed.

Lemma applySteps_loop_wave (step : MultiStep) cache :
  forall states ret_ w,
    applySteps_loop step states cache ret_ w
    = (let! successors := wave step states cache in
       ret (ret_ ++ successors)) w.
Proof.
  induction states as [|state rest IH]; intros ret_ w; simpl.
  - run. by rewrite app_nil_r.
  - rewrite bind_assoc. apply bind_ext; [done|].
    intros results w'. rewrite IH, bind_assoc.
    apply bind_ext; [done|]. intros more w''. run.
    by rewrite app_assoc.
Qed.

Lemma applySteps_wave (step : MultiStep) states cache w :
  applySteps step states cache w = wave step states cache w.
Proof.
  unfold applySteps. rewrite applySteps_loop_wave.
  apply bind_ret_r.
Qed.

Lemma wave_app (step : MultiStep) cache :
  forall first later w,
    wave step (first ++ later) cache w
    = (let! a := wave step first cache in
       let! b := wave step later cache in
       ret (a ++ b)) w.
Proof.
  induction first as [|state rest IH]; intros later w; simpl.
  - rewrite bind_ret_l. symmetry. apply bind_ret_r.
  - run. destruct (step state cache w) as [[successors|e] w']; [|done].
    rewrite IH.
    destruct (wave step rest cache w') as [[a|e] w'']; [|done].
    destruct (wave step later cache w'') as [[b|e] w3]; [|done].
    by rewrite app_assoc.
Qed.

Lemma reduceEach_ext (steps : list MultiStep) cache :
  forall cur cur' : M (World Ext) (list NavState),
    (forall w, cur w = cur' w) ->
    forall w, reduceEach cur steps cache w = reduceEach cur' steps cache w.
Proof.
  induction steps as [|step rest IH]; intros cur cur' E w; simpl.
  - apply E.
  - apply IH. intros w'. apply bind_ext; [apply E | done].
Qed.

Lemma wave_singletons (step : MultiStep) cache :
  (forall state w, exists s' w', step state cache w = (Ok [s'], w')) ->
  forall states w, exists out w',
    wave step states cache w = (Ok out, w')
    /\ length out = length states
    /\ Forall2 (fun state s' =>
                  exists w1 w2, step state cache w1 = (Ok [s'], w2))
         states out.
Proof.
  intros Hone. induction states as [|state rest IH]; intros w; simpl.
  - exists [], w. repeat split. constructor.
  - destruct (Hone state w) as (s' & w1 & E1).
    destruct (IH w1) as (out & w2 & E2 & Hlen & Hall).
    exists (s' :: out), w2. run. rewrite E1, E2. simpl.
    repeat split; [by rewrite Hlen|].
    constructor; [by exists w, w1 | done].
Qed.

(** C6. In every wave of [reduceEach] the step is applied to the states
    in input order and the successor lists are concatenated in that
    order ([wave]): all successors of earlier states come before all
    successors of later ones. When the step of a single wave returns
    exactly one successor for every state, K input states yield K
    successors, the i-th one being the successor of the i-th input. *)
Theorem reduceEach_wave_concatenates :
  forall (step : MultiStep) (cache : Cache),
    (forall states w,
        applySteps step states cache w = wave step states cache w)
    /\ (forall cur rest w,
          reduceEach cur (step :: rest) cache w
          = reduceEach (let! states := cur in wave step states cache)
              rest cache w)
    /\ (forall first later w,
          wave step (first ++ later) cache w
          = (let! a := wave step first cache in
             let! b := wave step later cache in
             ret (a ++ b)) w)
    /\ ((forall state w, exists s' w', step state cache w = (Ok [s'], w')) ->
        forall states w, exists out w',
          reduceEach (ret states) [step] cache w = (Ok out, w')
          /\ length out = length states
          /\ Forall2 (fun state s' =>
                        exists w1 w2, step state cache w1 = (Ok [s'], w2))
               states out).
Proof.
  intros step cache. split; [|split; [|split]].
  - intros. apply applySteps_wave.
  - intros cur rest w. simpl. apply reduceEach_ext.
    intros w'. apply bind_ext; [done|]. intros. apply applySteps_wave.
  - apply wave_app.
  - intros Hone states w. simpl. rewrite bind_ret_l, applySteps_wave.
    by apply wave_singletons.
Qed.
End Reducers.

(** ** The link resolver *)

Section Resolver.
Context `{Platform}.
Import Steps.

Lemma candidate_world state cache parameters href w :
  snd (candidate state cache parameters href w) = w.
Proof.
  unfold candidate. run.
  destruct (rebase state href); [|done].
  by destruct (NavState_new _ _ _ _).
Qed.

Lemma candidates_world state cache parameters :
  forall hrefs w, snd (candidates state cache parameters hrefs w) = w.
Proof.
  induction hrefs as [|href rest IH]; intros w; simpl; [done|].
  rewrite bind_run.
  pose proof (candidate_world state cache parameters href w) as E.
  destruct (candidate state cache parameters href w) as [[s|e] w'];
    simpl in E; subst w'; [|done].
  rewrite bind_run. specialize (IH w).
  by destruct (candidates state cache parameters rest w) as [[more|e] w'].
Qed.

Lemma candidates_app state cache parameters :
  forall first later w,
    candidates state cache parameters (first ++ later) w
    = (let! a := candidates state cache parameters first in
       let! b := candidates state cache parameters later in
       ret (a ++ b)) w.
Proof.
  induction first as [|href rest IH]; intros later w; simpl.
  - rewrite bind_ret_l. symmetry. apply bind_ret_r.
  - run. destruct (candidate state cache parameters href w) as [[s|e] w'];
      [|done].
    rewrite IH.
    destruct (candidates state cache parameters rest w') as [[a|e] w''];
      [|done].
    by destruct (candidates state cache parameters later w'') as [[b|e] w3].
Qed.

Lemma push_candidate_spec href state cache parameters possible w :
  push_candidate href state cache parameters possible w
  = (let! s := candidate state cache parameters href in
     ret (possible ++ [s])) w.
Proof.
  unfold push_candidate, candidate. run.
  destruct (rebase state href); [|done].
  by destruct (NavState_new _ _ _ _).
Qed.

Lemma visit_entity_target rel state cache parameters entity possible w :
  visit_entity rel state cache parameters entity possible w
  = match entity_target rel entity with
    | Some href => push_candidate href state cache parameters possible w
    | None => (Ok possible, w)
    end.
Proof.
  unfold visit_entity, entity_target.
  destruct (contains (entity_rel entity) rel); simpl; [|done].
  destruct entity as [l|rel' ls]; simpl; [done|].
  by destruct (truthy _).
Qed.

Lemma visit_link_target rel state cache parameters link possible w :
  visit_link rel state cache parameters link possible w
  = match link_target rel link with
    | Some href => push_candidate href state cache parameters possible w
    | None => (Ok possible, w)
    end.
Proof.
  unfold visit_link, link_target.
  by destruct (contains (link_rel link) rel).
Qed.

(** A [forEach] whose callback pushes at most one candidate per element
    appends the candidates of the elements' URLs, in order. *)
Lemma forEach_candidates {A} (target : A -> option string)
    (visit : A -> list NavState -> M (World Ext) (list NavState))
    state cache parameters :
  (forall x possible w,
      visit x possible w
      = match target x with
        | Some href => push_candidate href state cache parameters possible w
        | None => (Ok possible, w)
        end) ->
  forall xs possible w,
    forEach xs visit possible w
    = (let! more := candidates state cache parameters (omap target xs) in
       ret (possible ++ more)) w.
Proof.
  intros Hvisit. induction xs as [|x rest IH]; intros possible w.
  - simpl. run. by rewrite app_nil_r.
  - cbn [forEach]. rewrite bind_run, Hvisit.
    change (omap target (x :: rest))
      with (match target x with
            | Some href => href :: omap target rest
            | None => omap target rest
            end).
    destruct (target x) as [href|].
    + rewrite push_candidate_spec. cbn [candidates]. rewrite !bind_run.
      destruct (candidate state cache parameters href w) as [[s|e] w'];
        [|done].
      unfold ret at 1. rewrite IH, !bind_run.
      destruct (candidates state cache parameters (omap target rest) w')
        as [[more|e] w'']; [|done].
      run. by rewrite <- app_assoc.
    + apply IH.
Qed.

Lemma findPossible_candidates rel siren state cache parameters w :
  findPossible rel siren state cache parameters w
  = candidates state cache parameters (targets rel siren) w.
Proof.
  unfold findPossible, targets. rewrite candidates_app, bind_run.
  rewrite (forEach_candidates (entity_target rel) _ state cache parameters);
    last first.
  { intros. apply visit_entity_target. }
  rewrite !bind_run.
  destruct (candidates state cache parameters
              (omap (entity_target rel) (default [] (entities siren))) w)
    as [[a|e] w']; [|done].
  unfold ret at 1. cbn [app].
  rewrite (forEach_candidates (link_target rel) _ state cache parameters);
    last first.
  { intros. apply visit_link_target. }
  done.
Qed.

Lemma findPossible_world rel siren state cache parameters w :
  snd (findPossible rel siren state cache parameters w) = w.
Proof. rewrite findPossible_candidates. apply candidates_world. Qed.

Lemma candidates_Forall2 state cache parameters :
  forall hrefs w possible w',
    candidates state cache parameters hrefs w = (Ok possible, w') ->
    Forall2 (fun href s =>
               candidate state cache parameters href w = (Ok s, w))
      hrefs possible.
Proof.
  induction hrefs as [|href rest IH]; intros w possible w' E; simpl in E.
  - run. inversion E. constructor.
  - rewrite bind_run in E.
    pose proof (candidate_world state cache parameters href w) as Hw.
    destruct (candidate state cache parameters href w) as [[s|e] w1] eqn:Ec;
      simpl in Hw; subst w1; [|done].
    rewrite bind_run in E.
    destruct (candidates state cache parameters rest w) as [[more|e] w1]
      eqn:Er; [|done].
    run. inversion E; subst. constructor; [done|]. by eapply IH.
Qed.

(** C2, as amended. The candidates of [findPossible] are those of the
    matching sub-entities in document order (embedded links and embedded
    representations in one pass, as they occur), followed by those of
    the matching top-level links in document order; the world is left
    as it was. When the resolver returns a list, its i-th state is the
    candidate of the i-th URL in that order. *)
Theorem findPossible_document_order :
  forall rel siren state cache parameters w,
    findPossible rel siren state cache parameters w
    = candidates state cache parameters
        (omap (entity_target rel) (default [] (entities siren))
         ++ omap (link_target rel) (default [] (links siren))) w
    /\ snd (findPossible rel siren state cache parameters w) = w
    /\ (forall possible w',
          findPossible rel siren state cache parameters w = (Ok possible, w') ->
          Forall2 (fun href s =>
                     candidate state cache parameters href w = (Ok s, w))
            (targets rel siren) possible).
Proof.
  intros. split; [apply findPossible_candidates|].
  split; [apply findPossible_world|].
  intros possible w' E. rewrite findPossible_candidates in E.
  by eapply candidates_Forall2.
Qed.



End Resolver.

(** ** Following a relation, following a Location header *)

Section Following.
Context `{Platform}.
Import Steps.

Lemma follow_run rel parameters which state cache w siren w1 possible w2 :
  Utils.getSiren state w = (Ok siren, w1) ->
  findPossible rel siren state cache parameters w1 = (Ok possible, w2) ->
  follow rel parameters which state cache w
  = match possible with
    | [] => (Throw (not_found rel), w2)
    | [s] => (Ok s, w2)
    | _ =>
        match which with
        | None => (Throw (ambiguous rel w2 possible), w2)
        | Some f => f possible w2
        end
    end.
Proof.
  intros Es Ep. unfold follow. rewrite bind_run, Es, bind_run, Ep.
  destruct possible as [|s [|s' more]]; try done.
  cbn [length Nat.eqb Nat.ltb Nat.leb]. by destruct which.
Qed.

(** C1. Once the document is fetched and the candidates are resolved,
    [follow] goes by their number: none, it throws an error that names
    the relation; one, it returns that state; several and no
    disambiguator, it throws an error that lists all the candidates;
    several and a disambiguator, it returns what the disambiguator
    makes of the whole list. *)
Theorem follow_by_number_of_candidates :
  forall rel parameters state cache w siren w1 possible w2,
    Utils.getSiren state w = (Ok siren, w1) ->
    findPossible rel siren state cache parameters w1 = (Ok possible, w2) ->
    (possible = [] ->
       forall which,
         follow rel parameters which state cache w
         = (Throw (Error ("Cannot follow relation '" +:+ rel
                          +:+ "', no links with that relation")), w2))
    /\ (forall s, possible = [s] ->
          forall which,
            follow rel parameters which state cache w = (Ok s, w2))
    /\ (1 < length possible ->
          follow rel parameters None state cache w
          = (Throw (Error ("Multiple links with relation '" +:+ rel
                           +:+ "' found when only one was expected in "
                           +:+ JSON_stringify w2 possible)), w2))
    /\ (1 < length possible ->
          forall disambiguator,
            follow rel parameters (Some disambiguator) state cache w
            = disambiguator possible w2).
Proof.
  intros rel parameters state cache w siren w1 possible w2 Es Ep.
  repeat split.
  - intros -> which. by rewrite (follow_run _ _ _ _ _ _ _ _ _ _ Es Ep).
  - intros s -> which. by rewrite (follow_run _ _ _ _ _ _ _ _ _ _ Es Ep).
  - intros Hlen. rewrite (follow_run _ _ _ _ _ _ _ _ _ _ Es Ep).
    destruct possible as [|s [|s' more]]; simpl in Hlen; try lia. done.
  - intros Hlen f. rewrite (follow_run _ _ _ _ _ _ _ _ _ _ Es Ep).
    destruct possible as [|s [|s' more]]; simpl in Hlen; try lia. done.
Qed.

(** C10. With at most one candidate the disambiguator plays no part:
    whatever was supplied as disambiguator (a function that throws or
    changes the world included, or nothing), [follow] returns the one
    candidate when there is one, and throws the error that names the
    relation when there is none, in the world that the resolver left. *)
Theorem follow_disambiguator_only_when_ambiguous :
  forall rel parameters state cache w siren w1 possible w2,
    Utils.getSiren state w = (Ok siren, w1) ->
    findPossible rel siren state cache parameters w1 = (Ok possible, w2) ->
    length possible <= 1 ->
    forall which,
      follow rel parameters which state cache w
      = match possible with
        | [] => (Throw (not_found rel), w2)
        | s :: _ => (Ok s, w2)
        end
      /\ follow rel parameters which state cache w
         = follow rel parameters None state cache w.
Proof.
  intros rel parameters state cache w siren w1 possible w2 Es Ep Hlen which.
  rewrite !(follow_run _ _ _ _ _ _ _ _ _ _ Es Ep).
  destruct possible as [|s [|s' more]]; simpl in Hlen; try lia; done.
Qed.

Lemma truthy_js_or a b :
  truthy (js_or a b)
  = match truthy a with
    | Some s => Some s
    | None => truthy b
    end.
Proof.
  unfold js_or. destruct a as [[|c s]|]; simpl; try done.
Qed.

(** C7. [followLocation] first issues the transport request for the
    state; a failure of the transport is the failure of the step. On a
    response whose headers hold a Location value (a non-empty string)
    under "Location", or else under "location", it returns the state
    built at that value rebased on the input state, with the input
    state's configuration and the cache's entry for the rebased URL.
    When neither key holds such a value it throws the error whose
    message lists the keys of the response's headers. *)
Theorem followLocation_by_header :
  forall state cache w,
    (forall e w1,
        getRequest state w = (Throw e, w1) ->
        followLocation state cache w = (Throw e, w1))
    /\ (forall resp w1,
          getRequest state w = (Ok resp, w1) ->
          (forall location u u',
              truthy (header_lookup (resp_headers resp) "Location")
                = Some location
              \/ (truthy (header_lookup (resp_headers resp) "Location") = None
                  /\ truthy (header_lookup (resp_headers resp) "location")
                     = Some location) ->
              rebase state location = Ok u ->
              locate u None = Ok u' ->
              followLocation state cache w
              = (Ok {| cur := u'; config := config state;
                       value := caches w1 cache !! u |}, w1))
          /\ (truthy (header_lookup (resp_headers resp) "Location") = None ->
              truthy (header_lookup (resp_headers resp) "location") = None ->
              followLocation state cache w
              = (Throw (Error ("No 'Location' header found in '"
                               +:+ join ", " (Object_keys (resp_headers resp))
                               +:+ "'")), w1))).
Proof.
  intros state cache w. split.
  - intros e w1 E. unfold followLocation. by rewrite bind_run, E.
  - intros resp w1 E. unfold followLocation. rewrite bind_run, E.
    rewrite truthy_js_or. split.
    + intros location u u' Hloc Hu Hu'.
      assert (match truthy (header_lookup (resp_headers resp) "Location") with
              | Some s => Some s
              | None => truthy (header_lookup (resp_headers resp) "location")
              end = Some location) as ->.
      { destruct Hloc as [-> | [-> ->]]; done. }
      unfold NavState_new. run. rewrite Hu. simpl. by rewrite Hu'.
    + by intros -> ->.
Qed.
End Following.

(** ** URL normalization *)

Section Normalization.
Context `{UriJs}.
Import Utils.

(** C9, as amended. [normalizeUrl] fails with the exception of URI.js
    when the library throws: on parsing [href], on resolving a URN
    against a base, on expanding the template. When the library does not
    throw, it fails exactly when the URL that [href] resolves to against
    [base] ([href] itself when [base] is [null] or empty) is relative,
    with the error that says so, and otherwise returns that URL as a
    string, expanded with the template parameters when parameters are
    given. Every failure is one of these. *)
Theorem normalizeUrl_outcomes :
  forall href base parameters,
    (forall e, URI href = Throw e ->
       normalizeUrl href base parameters = Throw e)
    /\ (forall uri b e,
          URI href = Ok uri -> truthy base = Some b ->
          absoluteTo uri b = Throw e ->
          normalizeUrl href base parameters = Throw e)
    /\ (forall uri url,
          URI href = Ok uri ->
          match truthy base with
          | Some b => absoluteTo uri b
          | None => Ok uri
          end = Ok url ->
          (is_relative url = true ->
           normalizeUrl href base parameters
           = Throw (Error ("Normalized URL is relative: " +:+ toString url)))
          /\ (is_relative url = false ->
              normalizeUrl href base parameters
              = match parameters with
                | Some p => expand (toString url) p
                | None => Ok (toString url)
                end))
    /\ (forall e,
          normalizeUrl href base parameters = Throw e ->
          URI href = Throw e
          \/ (exists uri b,
                URI href = Ok uri /\ truthy base = Some b
                /\ absoluteTo uri b = Throw e)
          \/ (exists url,
                resolved href base = Ok url /\ is_relative url = true
                /\ e = Error ("Normalized URL is relative: "
                              +:+ toString url))
          \/ (exists url p,
                resolved href base = Ok url /\ is_relative url = false
                /\ parameters = Some p
                /\ expand (toString url) p = Throw e)).
Proof.
  intros href base parameters. unfold normalizeUrl, resolved.
  split; [|split; [|split]].
  - by intros e ->.
  - intros uri b e -> -> E. simpl. by rewrite E.
  - intros uri url -> E. simpl. rewrite E. simpl.
    split; by intros ->.
  - intros e. destruct (URI href) as [uri|e0]; simpl.
    + destruct (truthy base) as [b|] eqn:Eb.
      * destruct (absoluteTo uri b) as [url|e1] eqn:Ea; simpl.
        -- destruct (is_relative url) eqn:Er.
           ++ intros [= <-]. right. right. left. by exists url.
           ++ destruct parameters as [p|]; [|done].
              intros E. right. right. right. by exists url, p.
        -- intros [= <-]. right. left. by exists uri, b.
      * simpl. destruct (is_relative uri) eqn:Er.
        -- intros [= <-]. right. right. left. by exists uri.
        -- destruct parameters as [p|]; [|done].
           intros E. right. right. right. by exists uri, p.
    + intros [= <-]. by left.
Qed.
End Normalization.

(** ** The header steps *)

Section HeaderSteps.
Context `{Platform}.
Import Steps.

Lemma copy_config_run (w : World Ext) c o :
  configs w !! c = Some o ->
  (forall h, cfg_headers o = Some h -> is_Some (headerObjs w !! h)) ->
  exists h w1,
    copy_config c w = (Ok (fresh (dom (configs w)), h), w1)
    /\ configs w1
       = <[fresh (dom (configs w)) :=
             {| cfg_headers := Some h; cfg_rest := cfg_rest o |}]> (configs w)
    /\ headerObjs w ⊆ headerObjs w1
    /\ headerObjs w1 !! h
       = Some (match cfg_headers o with
               | Some h0 => default ∅ (headerObjs w !! h0)
               | None => ∅
               end)
    /\ caches w1 = caches w /\ outside w1 = outside w.
Proof.
  intros Ec Hh. unfold copy_config. rewrite bind_run.
  unfold read_config at 1. rewrite Ec. rewrite bind_run.
  unfold alloc_config at 1.
  destruct o as [[h0|] rest]; cbn [cfg_headers cfg_rest].
  - destruct (Hh h0 eq_refl) as [m Em].
    eexists h0, _. split; [reflexivity|]. simpl. rewrite Em.
    repeat split; done.
  - rewrite bind_run. unfold alloc_headers at 1. rewrite bind_run.
    unfold write_headers_field. simpl. rewrite lookup_insert_eq.
    eexists _, _. split; [reflexivity|]. simpl.
    rewrite insert_insert_eq. repeat split.
    + apply insert_subseteq, not_elem_of_dom, is_fresh.
    + apply lookup_insert_eq.
Qed.

Lemma spread_headers_run (w w1 : World Ext) state o :
  configs w !! config state = Some o ->
  (forall h, cfg_headers o = Some h -> is_Some (headerObjs w !! h)) ->
  configs w1 !! config state = Some o ->
  headerObjs w ⊆ headerObjs w1 ->
  spread_headers (config state) w1 = (Ok (headers_of w state), w1).
Proof.
  intros Ec Hh Ec1 Hsub. unfold spread_headers, headers_of.
  rewrite bind_run. unfold read_config. rewrite Ec1, Ec.
  destruct (cfg_headers o) as [h0|]; [|done].
  destruct (Hh h0 eq_refl) as [m Em]. unfold read_headers.
  by rewrite (lookup_weaken _ _ _ _ Em Hsub), Em.
Qed.

(** The end that [accept] and [header] share, from the new header
    object on. *)
Lemma install_headers_run (w w1 : World Ext) state cache o h hs u
    (k : loc -> M (World Ext) unit) (hs' : gmap string string) :
  configs w !! config state = Some o ->
  configs w1
  = <[fresh (dom (configs w)) :=
        {| cfg_headers := Some h; cfg_rest := cfg_rest o |}]> (configs w) ->
  headerObjs w ⊆ headerObjs w1 ->
  caches w1 = caches w -> outside w1 = outside w ->
  locate (cur state) None = Ok u ->
  (forall h' w2,
      headerObjs w2 !! h' = Some hs ->
      k h' w2 = (Ok tt, set_headerObjs <[h' := hs']> w2)) ->
  exists s' w',
    (let! h' := alloc_headers hs in
     let! _ := write_headers_field (fresh (dom (configs w))) h' in
     let! _ := k h' in
     let! v := getOr cache (cur state) in
     lift (NavState_new (cur state) None (fresh (dom (configs w))) v)) w1
    = (Ok s', w')
    /\ cur s' = u
    /\ value s' = caches w cache !! cur state
    /\ rebuilt w w' state s' hs'.
Proof.
  intros Ec Hc1 Hsub Hca Hout Hu Hk.
  rewrite bind_run. unfold alloc_headers at 1.
  rewrite bind_run. unfold write_headers_field at 1.
  cbn [configs set_headerObjs]. rewrite Hc1, lookup_insert_eq.
  rewrite bind_run, Hk; last by (simpl; apply lookup_insert_eq).
  rewrite bind_run. unfold getOr, reads, lift, NavState_new.
  rewrite Hu. simpl.
  eexists _, _. split; [reflexivity|]. simpl.
  split; [done|]. split; [by rewrite Hca|].
  split; [apply is_fresh|].
  exists (fresh (dom (headerObjs w1))). repeat split; simpl.
  - intros Hin. apply (is_fresh (dom (headerObjs w1))).
    by apply (subseteq_dom _ _ Hsub).
  - rewrite Hc1, insert_insert_eq. unfold rest_of. by rewrite Ec.
  - rewrite insert_insert_eq. etrans; [apply Hsub|].
    apply insert_subseteq, not_elem_of_dom, is_fresh.
  - apply lookup_insert_eq.
  - done.
  - done.
Qed.

Lemma header_run key val state cache (w : World Ext) u :
  state_ok w state ->
  locate (cur state) None = Ok u ->
  exists s' w',
    header key val state cache w = (Ok s', w')
    /\ cur s' = u
    /\ value s' = caches w cache !! cur state
    /\ rebuilt w w' state s' (assign key val (headers_of w state)).
Proof.
  intros (o & Ec & Hh) Hu.
  destruct (copy_config_run w _ o Ec Hh)
    as (h & w1 & Ecopy & Hc1 & Hsub & _ & Hca & Hout).
  assert (configs w1 !! config state = Some o) as Ec1.
  { rewrite Hc1, lookup_insert_ne; [done|].
    intros E. apply (is_fresh (dom (configs w))). rewrite E.
    apply elem_of_dom. by eexists. }
  unfold header. rewrite bind_run, Ecopy. cbn beta iota.
  rewrite bind_run, (spread_headers_run w w1 state o Ec Hh Ec1 Hsub).
  apply (install_headers_run w w1 state cache o h (headers_of w state) u
           (fun h' => write_header h' key val)); try done.
  intros h' w2 E. unfold write_header. by rewrite E.
Qed.

Lemma accept_run ctype state cache (w : World Ext) u :
  state_ok w state ->
  locate (cur state) None = Ok u ->
  headers_of w state !! "hasOwnProperty" = None ->
  exists s' w',
    accept ctype state cache w = (Ok s', w')
    /\ cur s' = u
    /\ value s' = caches w cache !! cur state
    /\ rebuilt w w' state s'
         (<["Accept" :=
              match headers_of w state !! "Accept" with
              | Some v => ctype +:+ ", " +:+ v
              | None => ctype
              end]> (headers_of w state)).
Proof.
  intros (o & Ec & Hh) Hu Hask.
  destruct (copy_config_run w _ o Ec Hh)
    as (h & w1 & Ecopy & Hc1 & Hsub & Hprops & Hca & Hout).
  assert (configs w1 !! config state = Some o) as Ec1.
  { rewrite Hc1, lookup_insert_ne; [done|].
    intros E. apply (is_fresh (dom (configs w))). rewrite E.
    apply elem_of_dom. by eexists. }
  assert (headerObjs w1 !! h = Some (headers_of w state)) as Eprops.
  { rewrite Hprops. unfold headers_of. by rewrite Ec. }
  unfold accept. rewrite bind_run, Ecopy. cbn beta iota.
  rewrite bind_run. unfold read_headers at 1. rewrite Eprops.
  rewrite bind_run. unfold hasOwnProperty, lift at 1. rewrite Hask.
  assert (forall hs,
             exists s' w',
               (let! h' := (let! old := spread_headers (config state) in
                            alloc_headers (<["Accept" := hs]> old)) in
                let! _ := write_headers_field (fresh (dom (configs w))) h' in
                let! v := getOr cache (cur state) in
                lift (NavState_new (cur state) None
                        (fresh (dom (configs w))) v)) w1
               = (Ok s', w')
               /\ cur s' = u
               /\ value s' = caches w cache !! cur state
               /\ rebuilt w w' state s'
                    (<["Accept" := hs]> (headers_of w state))) as Hinstall.
  { intros hs.
    destruct (install_headers_run w w1 state cache o h
                (<["Accept" := hs]> (headers_of w state)) u
                (fun _ => ret tt)
                (<["Accept" := hs]> (headers_of w state))
                Ec Hc1 Hsub Hca Hout Hu)
      as (s' & w' & E & Hs').
    { intros h' w2 E. unfold ret. f_equal. destruct w2.
      unfold set_headerObjs. simpl in *. f_equal. symmetry.
      by apply insert_id. }
    exists s', w'. split; [|done]. rewrite <- E.
    rewrite bind_assoc, bind_run.
    rewrite (spread_headers_run w w1 state o Ec Hh Ec1 Hsub).
    apply bind_ext; [done|]. intros h' w2.
    apply bind_ext; [done|]. intros [] w3. by rewrite bind_ret_l. }
  destruct (headers_of w state !! "Accept") as [v|]; apply Hinstall.
Qed.

Lemma accept_throws ctype state cache (w : World Ext) :
  state_ok w state ->
  is_Some (headers_of w state !! "hasOwnProperty") ->
  exists w',
    accept ctype state cache w
    = (Throw (TypeError "newconfig.headers.hasOwnProperty is not a function"),
       w').
Proof.
  intros (o & Ec & Hh) [x Hx].
  destruct (copy_config_run w _ o Ec Hh)
    as (h & w1 & Ecopy & Hc1 & Hsub & Hprops & Hca & Hout).
  assert (headerObjs w1 !! h = Some (headers_of w state)) as Eprops.
  { rewrite Hprops. unfold headers_of. by rewrite Ec. }
  exists w1. unfold accept. rewrite bind_run, Ecopy. cbn beta iota.
  rewrite bind_run. unfold read_headers at 1. rewrite Eprops.
  rewrite bind_run. unfold hasOwnProperty, lift at 1. by rewrite Hx.
Qed.

(** The objects that are kept show the same state. *)
Lemma objects_kept_state (w w' : World Ext) state :
  objects_kept w w' ->
  state_ok w state ->
  state_ok w' state
  /\ headers_of w' state = headers_of w state
  /\ rest_of w' state = rest_of w state.
Proof.
  intros (Hcsub & Hsub) (o & Ec & Hh).
  pose proof (lookup_weaken _ _ _ _ Ec Hcsub) as Ec'.
  repeat split.
  - exists o. split; [done|]. intros h0 E0.
    destruct (Hh h0 E0) as [m Em]. exists m.
    by apply (lookup_weaken _ _ _ _ Em Hsub).
  - unfold headers_of. rewrite Ec', Ec.
    destruct (cfg_headers o) as [h0|] eqn:E0; [|done].
    destruct (Hh h0 eq_refl) as [m Em].
    by rewrite (lookup_weaken _ _ _ _ Em Hsub), Em.
  - unfold rest_of. by rewrite Ec', Ec.
Qed.

(** A state of a world is the same state in a world that preserves it. *)
Lemma preserved_state (w w' : World Ext) state :
  preserved w w' ->
  state_ok w state ->
  state_ok w' state
  /\ headers_of w' state = headers_of w state
  /\ rest_of w' state = rest_of w state.
Proof.
  intros (Hcsub & Hsub & _) (o & Ec & Hh).
  pose proof (lookup_weaken _ _ _ _ Ec Hcsub) as Ec'.
  repeat split.
  - exists o. split; [done|]. intros h0 E0.
    destruct (Hh h0 E0) as [m Em]. exists m.
    by apply (lookup_weaken _ _ _ _ Em Hsub).
  - unfold headers_of. rewrite Ec', Ec.
    destruct (cfg_headers o) as [h0|] eqn:E0; [|done].
    destruct (Hh h0 eq_refl) as [m Em].
    by rewrite (lookup_weaken _ _ _ _ Em Hsub), Em.
  - unfold rest_of. by rewrite Ec', Ec.
Qed.

Lemma rebuilt_facts (w w' : World Ext) state s' hs :
  state_ok w state ->
  rebuilt w w' state s' hs ->
  state_ok w' s'
  /\ headers_of w' s' = hs
  /\ rest_of w' s' = rest_of w state
  /\ preserved w w'
  /\ state_ok w' state
  /\ headers_of w' state = headers_of w state
  /\ rest_of w' state = rest_of w state
  /\ exists h', headers_ref w' s' = Some h' /\ h' ∉ dom (headerObjs w).
Proof.
  intros Hok (Hfresh & h' & Hh' & Hc & Hsub & Ehs & Hca & Hout).
  assert (preserved w w') as Hpres.
  { repeat split; try done.
    rewrite Hc. by apply insert_subseteq, not_elem_of_dom. }
  assert (configs w' !! config s'
          = Some {| cfg_headers := Some h'; cfg_rest := rest_of w state |})
    as Es' by (rewrite Hc; apply lookup_insert_eq).
  destruct (preserved_state _ _ _ Hpres Hok) as (Hok' & Ehs' & Erest').
  split; [|split; [|split; [|split; [|split; [|split; [|split]]]]]];
    try done.
  - eexists. split; [exact Es'|]. simpl. intros h [= <-]. by eexists.
  - unfold headers_of. rewrite Es'. simpl. by rewrite Ehs.
  - unfold rest_of at 1. by rewrite Es'.
  - exists h'. split; [|done]. unfold headers_ref. by rewrite Es'.
Qed.

Lemma reduce_two (a b : Step) state cache (w : World Ext) :
  reduce (ret state) [a; b] cache w
  = (let! s := a state cache in b s cache) w.
Proof.
  simpl. unfold applyStep.
  apply bind_ext; [|done].
  apply (bind_ret_l state (fun s => a s cache)).
Qed.

Lemma assign_ne key val (m : gmap string string) :
  key <> "__proto__" -> assign key val m = <[key := val]> m.
Proof.
  intros Hk. unfold assign. by apply String.eqb_neq in Hk as ->.
Qed.

Lemma append_not_self (t x : string) : x <> EmptyString -> t <> t +:+ x.
Proof.
  intros Hx. induction t as [|c t IH]; simpl.
  - intros E. by apply Hx.
  - intros [= E]. by apply IH.
Qed.

(** Away from the header name "hasOwnProperty", [accept] of [steps.ts]
    accumulates. *)
Lemma accept_accumulates ctype state cache (w : World Ext) :
  state_ok w state ->
  positioned state ->
  headers_of w state !! "hasOwnProperty" = None ->
  (exists s' w',
      accept ctype state cache w = (Ok s', w')
      /\ headers_of w' s' !! "Accept"
         = Some (match headers_of w state !! "Accept" with
                 | Some v => ctype +:+ ", " +:+ v
                 | None => ctype
                 end)
      /\ (forall k, k <> "Accept" ->
            headers_of w' s' !! k = headers_of w state !! k))
  /\ (forall v,
        headers_of w state !! "Accept" = Some v ->
        exists s' w',
          accept ctype state cache w = (Ok s', w')
          /\ headers_of w' s' !! "Accept" = Some (ctype +:+ ", " +:+ v))
  /\ (headers_of w state !! "Accept" = None ->
      exists s2 w2,
        reduce (ret state)
          [accept "application/json"; accept "application/xml"] cache w
        = (Ok s2, w2)
        /\ headers_of w2 s2 !! "Accept"
           = Some "application/xml, application/json").
Proof.
  intros Hok Hpos Hask.
  destruct (accept_run ctype state cache w _ Hok Hpos Hask)
    as (s' & w' & E & Hcur & _ & Hre).
  destruct (rebuilt_facts _ _ _ _ _ Hok Hre) as (_ & Ehs & _).
  split; [|split].
  - exists s', w'. split; [done|]. rewrite Ehs. split.
    + apply lookup_insert_eq.
    + intros k Hk. by apply lookup_insert_ne.
  - intros v Ev. exists s', w'. split; [done|].
    rewrite Ehs, Ev. apply lookup_insert_eq.
  - intros Enone.
    destruct (accept_run "application/json" state cache w _ Hok Hpos Hask)
      as (s1 & w1 & E1 & Hcur1 & _ & Hre1).
    destruct (rebuilt_facts _ _ _ _ _ Hok Hre1) as (Hok1 & Ehs1 & _).
    assert (positioned s1) as Hpos1.
    { unfold positioned in *. by rewrite Hcur1. }
    assert (headers_of w1 s1 !! "hasOwnProperty" = None) as Hask1.
    { rewrite Ehs1, lookup_insert_ne; done. }
    destruct (accept_run "application/xml" s1 cache w1 _ Hok1 Hpos1 Hask1)
      as (s2 & w2 & E2 & _ & _ & Hre2).
    destruct (rebuilt_facts _ _ _ _ _ Hok1 Hre2) as (_ & Ehs2 & _).
    exists s2, w2. split.
    + by rewrite reduce_two, bind_run, E1.
    + rewrite Ehs2, lookup_insert_eq, Ehs1, Enone, lookup_insert_eq.
      reflexivity.
Qed.

(** C3. Where [accept] accumulates and where the code does not. On a
    state whose configuration and URL are well formed, [accept ctype] of
    [steps.ts] returns a state whose Accept header is [ctype], followed
    by ", " and the former value when there was one (so
    [accept "application/json"] then [accept "application/xml"] give
    "application/xml, application/json"), provided the header object has
    no own property named "hasOwnProperty". When it has one, the call
    [newconfig.headers.hasOwnProperty("Accept")] throws a [TypeError] and
    no state is returned. The [accept] of [build.ts] is
    [header("Accept", ctype)]: with [headerConfig] setting the key, the
    configuration of the new state has Accept bound to [ctype] alone,
    whatever the former value. *)
Theorem accept_accumulates_except :
  (forall ctype state cache (w : World Ext),
      state_ok w state ->
      positioned state ->
      (headers_of w state !! "hasOwnProperty" = None ->
       (exists s' w',
           accept ctype state cache w = (Ok s', w')
           /\ headers_of w' s' !! "Accept"
              = Some (match headers_of w state !! "Accept" with
                      | Some v => ctype +:+ ", " +:+ v
                      | None => ctype
                      end)
           /\ (forall k, k <> "Accept" ->
                 headers_of w' s' !! k = headers_of w state !! k))
       /\ (headers_of w state !! "Accept" = None ->
           exists s2 w2,
             reduce (ret state)
               [accept "application/json"; accept "application/xml"] cache w
             = (Ok s2, w2)
             /\ headers_of w2 s2 !! "Accept"
                = Some "application/xml, application/json"))
      /\ (is_Some (headers_of w state !! "hasOwnProperty") ->
          exists w',
            accept ctype state cache w
            = (Throw (TypeError
                        "newconfig.headers.hasOwnProperty is not a function"),
               w')))
  /\ (forall (W State : Type) (cur_ : State -> string)
             (currentConfig : State -> BuildConfig)
             (new_ : string -> option Params -> BuildConfig -> M W State)
             ctype (st : State) (w0 : W),
        Build.accept W State BuildConfig cur_ currentConfig new_
          (fun k v c => ret (headerConfig k v c)) ctype st w0
        = new_ (cur_ st) None (headerConfig "Accept" ctype (currentConfig st))
            w0
        /\ bc_headers (headerConfig "Accept" ctype (currentConfig st))
           !! "Accept" = Some ctype
        /\ forall v,
             bc_headers (headerConfig "Accept" ctype (currentConfig st))
             !! "Accept" <> Some (ctype +:+ ", " +:+ v)).
Proof.
  split.
  - intros ctype state cache w Hok Hpos. split.
    + intros Hask.
      destruct (accept_accumulates ctype state cache w Hok Hpos Hask)
        as (H1 & _ & H3).
      by split.
    + by apply accept_throws.
  - intros W State cur_ currentConfig new_ ctype st w0. split; [done|].
    unfold headerConfig. cbn [bc_headers]. rewrite lookup_insert_eq.
    split; [done|]. intros v [= E]. by apply (append_not_self ctype) in E.
Qed.

(** C4, as amended. On a state whose configuration and URL are well
    formed, and for a key other than "__proto__", [header key val]
    returns a new state in which [key] is bound to [val] and every other
    header is as in the input; the other properties of the
    configuration and the current URL are those of the input; the
    response of the new state is the entry of the cache for the current
    URL (not the response that the input state carries). The
    configuration object and the header object of the new state are new
    objects, every object that existed keeps its content, and so the
    input state still shows its former headers. After [header key v1]
    then [header key v2] the key is bound to [v2]. *)
Theorem header_sets_key_on_a_copy :
  forall key v1 v2 state cache (w : World Ext),
    key <> "__proto__" ->
    state_ok w state ->
    positioned state ->
    (exists s' w',
        header key v1 state cache w = (Ok s', w')
        /\ headers_of w' s' = <[key := v1]> (headers_of w state)
        /\ rest_of w' s' = rest_of w state
        /\ cur s' = cur state
        /\ value s' = caches w cache !! cur state
        /\ preserved w w'
        /\ headers_of w' state = headers_of w state
        /\ rest_of w' state = rest_of w state
        /\ (config s' ∉ dom (configs w))
        /\ exists h', headers_ref w' s' = Some h'
                      /\ h' ∉ dom (headerObjs w))
    /\ (exists s2 w2,
          reduce (ret state) [header key v1; header key v2] cache w
          = (Ok s2, w2)
          /\ headers_of w2 s2 !! key = Some v2
          /\ headers_of w2 s2 = <[key := v2]> (headers_of w state)
          /\ headers_of w2 state = headers_of w state).
Proof.
  intros key v1 v2 state cache w Hkey Hok Hpos.
  destruct (header_run key v1 state cache w _ Hok Hpos)
    as (s1 & w1 & E1 & Hcur1 & Hval1 & Hre1).
  rewrite (assign_ne _ _ _ Hkey) in Hre1.
  pose proof Hre1 as (Hfresh1 & _).
  destruct (rebuilt_facts _ _ _ _ _ Hok Hre1)
    as (Hok1 & Ehs1 & Erest1 & Hpres1 & Hok' & Ehs' & Erest' & Href1).
  split.
  - exists s1, w1. by repeat (split; [done|]).
  - assert (positioned s1) as Hpos1.
    { unfold positioned in *. by rewrite Hcur1. }
    destruct (header_run key v2 s1 cache w1 _ Hok1 Hpos1)
      as (s2 & w2 & E2 & _ & _ & Hre2).
    rewrite (assign_ne _ _ _ Hkey) in Hre2.
    destruct (rebuilt_facts _ _ _ _ _ Hok1 Hre2)
      as (_ & Ehs2 & _ & Hpres2 & _).
    destruct (preserved_state _ _ _ Hpres2 Hok') as (_ & Ehs'' & _).
    exists s2, w2. split; [|split; [|split]].
    + by rewrite reduce_two, bind_run, E1.
    + rewrite Ehs2. apply lookup_insert_eq.
    + by rewrite Ehs2, Ehs1, insert_insert_eq.
    + by rewrite Ehs'', Ehs'.
Qed.
End HeaderSteps.

(** ** [build.ts] *)

Section BuildFacts.
Context `{UriJs}.
Variables (W State Cfg : Type).
Variable cur : State -> string.
Variable currentConfig : State -> Cfg.
Variable NavState_new : string -> option Params -> Cfg -> M W State.
Variable headerConfig : string -> string -> Cfg -> M W Cfg.

(** In [build.ts], [accept] is [header] on the key "Accept": what it
    does to a former value is what [headerConfig] does, which is not
    among the sources. *)
Lemma build_accept_is_header ctype state w :
  Build.accept W State Cfg cur currentConfig NavState_new headerConfig
    ctype state w
  = (let! c := headerConfig "Accept" ctype (currentConfig state) in
     NavState_new (cur state) None c) w.
Proof. reflexivity. Qed.
End BuildFacts.

(** ** The steps at work on the concrete platform *)

Section Examples.
Import Toy Steps.

Abbreviation follow' := (@follow uri platform).
Abbreviation findPossible' := (@findPossible uri platform).
Abbreviation header' := (@header uri platform).
Abbreviation accept' := (@accept uri platform).

(** Witness of C1: the root document has three candidates for "item". *)
Lemma follow_by_number_of_candidates_witness :
  follow' "item" None None state0 0 (world0 servers_three)
  = (Throw (Error ("Multiple links with relation 'item' found when only "
                   +:+ "one was expected in "
                   +:+ "[http://api/a, http://api/b, http://api/c]")),
     world0 servers_three)
  /\ follow' "item" None (Some last_of) state0 0 (world0 servers_three)
     = (Ok (at_ "http://api/c"), world0 servers_three).
Proof.
  pose proof (@follow_by_number_of_candidates uri platform
                "item" None state0 0 (world0 servers_three)
                doc_repr_then_link (world0 servers_three)
                [at_ "http://api/a"; at_ "http://api/b"; at_ "http://api/c"]
                (world0 servers_three) eq_refl eq_refl)
    as (_ & _ & Hnone & Hsome).
  split.
  - apply Hnone. simpl. lia.
  - rewrite Hsome; [reflexivity | simpl; lia].
Defined.

(** Witness of C10: one candidate, and a disambiguator that would
    throw. *)
Lemma follow_disambiguator_only_when_ambiguous_witness :
  follow' "item" None (Some refuse) state0 0 (world0 servers_one)
  = (Ok (at_ "http://api/only"), world0 servers_one)
  /\ follow' "item" None (Some refuse) state0 0 (world0 servers_none)
     = (Throw (Error "Cannot follow relation 'item', no links with that relation"),
        world0 servers_none).
Proof.
  split.
  - apply (@follow_disambiguator_only_when_ambiguous uri platform
             "item" None state0 0 (world0 servers_one)
             doc_one_link (world0 servers_one)
             [at_ "http://api/only"] (world0 servers_one)
             eq_refl eq_refl).
    simpl. lia.
  - apply (@follow_disambiguator_only_when_ambiguous uri platform
             "item" None state0 0 (world0 servers_none)
             no_siren (world0 servers_none)
             [] (world0 servers_none)
             eq_refl eq_refl).
    simpl. lia.
Defined.

(** Counterexample to C2 as stated: the embedded representation comes
    first in the document, and its candidate comes first in the list,
    before the candidate of the embedded link. *)
Lemma findPossible_not_three_phase :
  fst (findPossible' "item" doc_repr_then_link state0 0 None (world0 ∅))
  = Ok [at_ "http://api/a"; at_ "http://api/b"; at_ "http://api/c"]
  /\ fst (@candidates uri platform state0 0 None
            (three_phase_targets "item" doc_repr_then_link) (world0 ∅))
     = Ok [at_ "http://api/b"; at_ "http://api/a"; at_ "http://api/c"]
  /\ findPossible' "item" doc_repr_then_link state0 0 None (world0 ∅)
     <> @candidates uri platform state0 0 None
          (three_phase_targets "item" doc_repr_then_link) (world0 ∅).
Proof.
  split; [reflexivity|]. split; [reflexivity|].
  intros E. apply (f_equal fst) in E. vm_compute in E. discriminate E.
Qed.

(** Witness of C2 as amended. *)
Lemma findPossible_document_order_witness :
  Forall2 (fun href s =>
             @candidate uri platform state0 0 None href (world0 ∅)
             = (Ok s, world0 ∅))
    ["http://api/a"; "http://api/b"; "http://api/c"]
    [at_ "http://api/a"; at_ "http://api/b"; at_ "http://api/c"].
Proof.
  apply (proj2 (proj2 (@findPossible_document_order uri platform
                         "item" doc_repr_then_link state0 0 None (world0 ∅)))
           _ (world0 ∅)).
  reflexivity.
Defined.


Lemma state0_ok servers : state_ok (world0 servers) state0.
Proof.
  exists config0. split; [reflexivity|]. intros h E. discriminate E.
Defined.

(** Away from "hasOwnProperty": no Accept header at first. *)
Lemma accept_accumulates_witness :
  exists s2 w2,
    @reduce uri platform (ret state0)
      [accept' "application/json"; accept' "application/xml"] 0 (world0 ∅)
    = (Ok s2, w2)
    /\ headers_of w2 s2 !! "Accept"
       = Some "application/xml, application/json".
Proof.
  apply (proj2 (proj2 (@accept_accumulates uri platform
                         "text/html" state0 0 (world0 ∅)
                         (state0_ok ∅) eq_refl eq_refl))).
  reflexivity.
Defined.

(** Witness of C3: a state without headers; a state whose header object
    has an own property "hasOwnProperty"; the [accept] of [build.ts] on
    a state that accepts "application/json" already. *)
Lemma accept_accumulates_except_witness :
  (exists s2 w2,
      @reduce uri platform (ret state0)
        [accept' "application/json"; accept' "application/xml"] 0 (world0 ∅)
      = (Ok s2, w2)
      /\ headers_of w2 s2 !! "Accept"
         = Some "application/xml, application/json")
  /\ (exists w',
        accept' "application/xml" state0 0 Samples.world_own_key
        = (Throw (TypeError
                    "newconfig.headers.hasOwnProperty is not a function"),
           w'))
  /\ Samples.build_accept "application/xml"
       (Samples.build_state {[ "Accept" := "application/json" ]}) tt
     = (Ok (Samples.build_state {[ "Accept" := "application/xml" ]}), tt).
Proof.
  split; [|split].
  - apply (proj2 (proj1 (proj1 (@accept_accumulates_except uri platform)
                           "text/html" state0 0 (world0 ∅)
                           (state0_ok ∅) eq_refl)
                    eq_refl)).
    reflexivity.
  - apply (proj2 (proj1 (@accept_accumulates_except uri platform)
                    "application/xml" state0 0 Samples.world_own_key
                    ltac:(eexists; split; [reflexivity|];
                          intros h [= <-]; eexists; reflexivity)
                    eq_refl)).
    eexists. reflexivity.
  - unfold Samples.build_accept.
    rewrite (proj1 (proj2 (@accept_accumulates_except uri platform)
                      unit Samples.BuildState Samples.bs_cur
                      Samples.bs_config Samples.build_new
                      "application/xml"
                      (Samples.build_state {[ "Accept" := "application/json" ]})
                      tt)).
    reflexivity.
Defined.

(** Counterexample to C4 as stated: the response of the new state is
    the cache's entry, which need not be the response of the input
    state, in either direction. *)
Lemma header_response_from_cache :
  (fst (header' "Accept-Language" "en" state0 0 world_cached)
   = Ok {| cur := "http://api/"; config := 1; value := Some response0 |}
   /\ Some response0 <> value state0)
  /\ (fst (header' "Accept-Language" "en" state1 0 (world0 ∅))
      = Ok {| cur := "http://api/"; config := 1; value := None |}
      /\ None <> value state1).
Proof. repeat split; discriminate. Qed.

(** Witness of C4 as amended. *)
Lemma header_sets_key_on_a_copy_witness :
  exists s2 w2,
    @reduce uri platform (ret state0)
      [header' "Accept-Language" "en"; header' "Accept-Language" "fr"]
      0 (world0 ∅)
    = (Ok s2, w2)
    /\ headers_of w2 s2 !! "Accept-Language" = Some "fr"
    /\ headers_of w2 s2 = <["Accept-Language" := "fr"]> (headers_of (world0 ∅) state0)
    /\ headers_of w2 state0 = headers_of (world0 ∅) state0.
Proof.
  apply (proj2 (@header_sets_key_on_a_copy uri platform
                  "Accept-Language" "en" "fr" state0 0 (world0 ∅)
                  ltac:(discriminate) (state0_ok ∅) eq_refl)).
Defined.

(** Witness of C6: two states, one successor each. *)
Lemma reduceEach_wave_concatenates_witness :
  exists out w',
    @reduceEach uri platform (ret [state0; state1]) [stay] 0 (world0 ∅)
    = (Ok out, w')
    /\ length out = 2
    /\ Forall2 (fun state s' =>
                  exists w1 w2, stay state 0 w1 = (Ok [s'], w2))
         [state0; state1] out.
Proof.
  apply (proj2 (proj2 (proj2 (@reduceEach_wave_concatenates uri platform
                                stay 0)))).
  intros state w. exists state, w. reflexivity.
Defined.

(** Witness of C7: a lower-case location header, and no such header. *)
Lemma followLocation_by_header_witness :
  @followLocation uri platform state0 0 (world0 servers_created)
  = (Ok (at_ "http://api/items/5"), world0 servers_created)
  /\ @followLocation uri platform state0 0 (world0 servers_plain)
     = (Throw (Error "No 'Location' header found in 'content-length, etag'"),
        world0 servers_plain).
Proof.
  split.
  - apply (proj1 (proj2 (@followLocation_by_header uri platform
                           state0 0 (world0 servers_created))
                    _ _ eq_refl)
             "http://api/items/5" "http://api/items/5" "http://api/items/5").
    + right. split; reflexivity.
    + reflexivity.
    + reflexivity.
  - apply (proj2 (proj2 (@followLocation_by_header uri platform
                           state0 0 (world0 servers_plain))
                    _ _ eq_refl)); reflexivity.
Defined.

(** Counterexample to C9 as stated: a [mailto:] address is absolute and
    is returned when there is no base; against a base the library throws
    while resolving it, so [normalizeUrl] fails although no URL was found
    relative. *)
Lemma normalizeUrl_fails_on_urn :
  @Utils.normalizeUrl uri "mailto:a@b.c" None None = Ok "mailto:a@b.c"
  /\ @Utils.normalizeUrl uri "mailto:a@b.c" (Some "http://api/") None
     = Throw (Error "URNs do not have any generally defined hierarchical components")
  /\ ~ (exists url,
          @Utils.resolved uri "mailto:a@b.c" (Some "http://api/") = Ok url
          /\ @is_relative uri url = true).
Proof.
  split; [reflexivity|]. split; [reflexivity|].
  intros (url & E & _). discriminate E.
Qed.

(** Witness of C9 as amended: a relative path without base and with a
    base, and the address that cannot be resolved. *)
Lemma normalizeUrl_outcomes_witness :
  @Utils.normalizeUrl uri "/items/5" None None
  = Throw (Error "Normalized URL is relative: /items/5")
  /\ @Utils.normalizeUrl uri "items/5" (Some "http://api/") None
     = Ok "http://api/items/5"
  /\ @Utils.normalizeUrl uri "mailto:a@b.c" (Some "http://api/") None
     = Throw (Error "URNs do not have any generally defined hierarchical components").
Proof.
  split; [|split].
  - apply (proj1 (proj1 (proj2 (proj2 (@normalizeUrl_outcomes uri
                                         "/items/5" None None)))
                    "/items/5" "/items/5" eq_refl eq_refl)).
    reflexivity.
  - apply (proj2 (proj1 (proj2 (proj2 (@normalizeUrl_outcomes uri
                                         "items/5" (Some "http://api/") None)))
                    "items/5" "http://api/items/5" eq_refl eq_refl)).
    reflexivity.
  - apply (proj1 (proj2 (@normalizeUrl_outcomes uri
                           "mailto:a@b.c" (Some "http://api/") None))
             "mailto:a@b.c" "http://api/" _ eq_refl eq_refl eq_refl).
Defined.
End Examples.

(** * Further properties *)

(** ** The reducers: composition, empty sets, failures, lifted steps *)

Section MoreReducers.
Context `{Platform}.
Import Steps.

Lemma reduce_nested (pre post : list Step) cache :
  forall (cur : M (World Ext) NavState) w,
    reduce (reduce cur pre cache) post cache w
    = reduce cur (pre ++ post) cache w.
Proof.
  induction pre as [|step pre IH]; intros cur w; simpl; [done|].
  apply IH.
Qed.

Lemma reduceEach_nested (pre post : list MultiStep) cache :
  forall (cur : M (World Ext) (list NavState)) w,
    reduceEach (reduceEach cur pre cache) post cache w
    = reduceEach cur (pre ++ post) cache w.
Proof.
  induction pre as [|step pre IH]; intros cur w; simpl; [done|].
  apply IH.
Qed.

Lemma reduceEach_bind (steps : list MultiStep) cache :
  forall (cur : M (World Ext) (list NavState)) w,
    reduceEach cur steps cache w
    = (let! states := cur in reduceEach (ret states) steps cache) w.
Proof.
  induction steps as [|step rest IH]; intros cur w; simpl.
  - by rewrite bind_ret_r.
  - rewrite IH, bind_assoc. apply bind_ext; [done|].
    intros states w'. rewrite (IH (let! s := ret states in _)).
    by apply bind_ext.
Qed.

(** X5. The reducers compose: since the result of a reduction is a
    promise, it can start another reduction, and reducing over [pre] and
    then over [post] is reducing over [pre ++ post], for [reduce] and for
    [reduceEach]. *)
Theorem reducers_compose :
  forall cache,
    (forall (cur : M (World Ext) NavState) (pre post : list Step) w,
        reduce (reduce cur pre cache) post cache w
        = reduce cur (pre ++ post) cache w)
    /\ (forall (cur : M (World Ext) (list NavState))
               (pre post : list MultiStep) w,
          reduceEach (reduceEach cur pre cache) post cache w
          = reduceEach cur (pre ++ post) cache w).
Proof.
  intros cache. split; intros cur pre post w.
  - apply reduce_nested.
  - apply reduceEach_nested.
Qed.

Lemma reduceEach_nil (steps : list MultiStep) cache :
  forall w, reduceEach (ret []) steps cache w = (Ok [], w).
Proof.
  induction steps as [|step rest IH]; intros w; simpl; [done|].
  rewrite (reduceEach_ext rest cache _ (ret [])); [apply IH|].
  intros w'. by rewrite bind_ret_l.
Qed.

(** X6. An empty working set stays empty: on no state, [reduceEach]
    applies no step of any wave and returns the empty list in the same
    world; and once the waves so far have produced no state, the waves
    that follow change nothing. *)
Theorem reduceEach_empty_set :
  forall (steps : list MultiStep) cache,
    (forall w, reduceEach (ret []) steps cache w = (Ok [], w))
    /\ (forall (cur : M (World Ext) (list NavState)) pre w w',
          reduceEach cur pre cache w = (Ok [], w') ->
          reduceEach cur (pre ++ steps) cache w = (Ok [], w')).
Proof.
  intros steps cache. split; [apply reduceEach_nil|].
  intros cur pre w w' E.
  rewrite <- reduceEach_nested, reduceEach_bind, bind_run, E.
  apply reduceEach_nil.
Qed.

Lemma wave_failure (step : MultiStep) cache :
  forall first state later a w w1 e w2,
    wave step first cache w = (Ok a, w1) ->
    step state cache w1 = (Throw e, w2) ->
    wave step (first ++ state :: later) cache w = (Throw e, w2).
Proof.
  intros first state later a w w1 e w2 Ea Es.
  rewrite wave_app, bind_run, Ea, bind_run. simpl.
  by rewrite bind_run, Es.
Qed.

(** X7. A failure inside a wave ends the whole fan-out: when the step
    throws on some state of the working set (after the states before it
    were expanded), [reduceEach] throws that exception in the world of
    the failure, whatever states come later in the set and whatever
    waves come later in the list. *)
Theorem reduceEach_failure_aborts :
  forall (step : MultiStep) cache first state later rest a w w1 e w2,
    wave step first cache w = (Ok a, w1) ->
    step state cache w1 = (Throw e, w2) ->
    applySteps step (first ++ state :: later) cache w = (Throw e, w2)
    /\ reduceEach (ret (first ++ state :: later)) (step :: rest) cache w
       = (Throw e, w2).
Proof.
  intros step cache first state later rest a w w1 e w2 Ea Es.
  pose proof (wave_failure step cache first state later a w w1 e w2 Ea Es)
    as Ew.
  split.
  - by rewrite applySteps_wave.
  - simpl. rewrite reduceEach_bind, bind_run, bind_ret_l.
    by rewrite applySteps_wave, Ew.
Qed.

Lemma applySteps_toMulti_one (step : Step) state cache w :
  applySteps (toMulti step) [state] cache w
  = (let! s := step state cache in ret [s]) w.
Proof.
  rewrite applySteps_wave. simpl. unfold toMulti.
  rewrite bind_assoc. apply bind_ext; [done|].
  intros s w'. by rewrite bind_ret_l.
Qed.

Lemma reduceEach_toMulti (steps : list Step) cache :
  forall (cur : M (World Ext) NavState) w,
    reduceEach (let! s := cur in ret [s]) (map toMulti steps) cache w
    = (let! s := reduce cur steps cache in ret [s]) w.
Proof.
  induction steps as [|step rest IH]; intros cur w; simpl; [done|].
  rewrite <- IH. apply reduceEach_ext. intros w'.
  rewrite !bind_assoc. apply bind_ext; [done|].
  intros s w''. rewrite bind_ret_l. apply applySteps_toMulti_one.
Qed.

(** X8. Lifting a sequential pipeline into waves changes nothing: on a
    single state, [reduceEach] over the steps lifted with [toMulti]
    returns the one-element list of what [reduce] returns over the
    steps, and fails when and as [reduce] fails. *)
Theorem toMulti_reduceEach_is_reduce :
  forall (steps : list Step) state cache w,
    reduceEach (ret [state]) (map toMulti steps) cache w
    = (let! s := reduce (ret state) steps cache in ret [s]) w.
Proof.
  intros steps state cache w.
  rewrite <- reduceEach_toMulti. apply reduceEach_ext.
  intros w'. by rewrite bind_ret_l.
Qed.
End MoreReducers.

(** ** Following: the two follow steps side by side, edge cases *)

Section MoreFollowing.
Context `{Platform}.
Import Steps.

Lemma follow_followEach_run rel parameters which state cache w :
  follow rel parameters which state cache w
  = match followEach rel parameters state cache w with
    | (Throw e, w') => (Throw e, w')
    | (Ok [], w') => (Throw (not_found rel), w')
    | (Ok [s], w') => (Ok s, w')
    | (Ok possible, w') =>
        match which with
        | None => (Throw (ambiguous rel w' possible), w')
        | Some f => f possible w'
        end
    end.
Proof.
  unfold follow, followEach. rewrite !bind_run.
  destruct (Utils.getSiren state w) as [[siren|e] w1]; [|done].
  rewrite bind_run.
  destruct (findPossible rel siren state cache parameters w1)
    as [[possible|e] w2]; [|done].
  destruct possible as [|s [|s' more]]; try done.
  cbn [length Nat.eqb Nat.ltb Nat.leb]. by destruct which.
Qed.

(** X1. [follow] is [followEach] followed by the choice: it fails as
    [followEach] fails (a transport error, a URL that cannot be
    resolved), throws the not-found error on the empty list, returns the
    element of a one-element list, and on a longer list throws the
    ambiguity error or hands the list to the disambiguator. *)
Theorem follow_from_followEach :
  forall rel parameters which state cache w,
    follow rel parameters which state cache w
    = match followEach rel parameters state cache w with
      | (Throw e, w') => (Throw e, w')
      | (Ok [], w') =>
          (Throw (Error ("Cannot follow relation '" +:+ rel
                         +:+ "', no links with that relation")), w')
      | (Ok [s], w') => (Ok s, w')
      | (Ok possible, w') =>
          match which with
          | None =>
              (Throw (Error ("Multiple links with relation '" +:+ rel
                             +:+ "' found when only one was expected in "
                             +:+ JSON_stringify w' possible)), w')
          | Some f => f possible w'
          end
      end.
Proof. intros. apply follow_followEach_run. Qed.

Lemma no_match_entities rel (es : list SubEntity) :
  forallb (fun e => negb (contains (entity_rel e) rel)) es = true ->
  omap (entity_target rel) es = [].
Proof.
  induction es as [|e es IH]; [done|].
  cbn [forallb]. intros [E1 E2]%andb_true_iff.
  change (omap (entity_target rel) (e :: es))
    with (match entity_target rel e with
          | Some href => href :: omap (entity_target rel) es
          | None => omap (entity_target rel) es
          end).
  unfold entity_target at 1.
  apply negb_true_iff in E1. rewrite E1. by apply IH.
Qed.

Lemma no_match_links rel (ls : list Link) :
  forallb (fun l => negb (contains (link_rel l) rel)) ls = true ->
  omap (link_target rel) ls = [].
Proof.
  induction ls as [|l ls IH]; [done|].
  cbn [forallb]. intros [E1 E2]%andb_true_iff.
  change (omap (link_target rel) (l :: ls))
    with (match link_target rel l with
          | Some href => href :: omap (link_target rel) ls
          | None => omap (link_target rel) ls
          end).
  unfold link_target at 1.
  apply negb_true_iff in E1. rewrite E1. by apply IH.
Qed.

Lemma no_match_targets rel siren :
  no_match rel siren = true -> targets rel siren = [].
Proof.
  unfold no_match, targets. intros [E1 E2]%andb_true_iff.
  by rewrite (no_match_entities _ _ E1), (no_match_links _ _ E2).
Qed.

(** X2. On a document in which no sub-entity and no link carries the
    relation (a document without [entities] and [links] included), the
    resolver returns the empty list without resolving any URL;
    [followEach] then returns the empty list and [follow] throws the
    not-found error, with or without a disambiguator. *)
Theorem no_match_gives_no_candidate :
  forall rel siren,
    no_match rel siren = true ->
    (forall state cache parameters w,
        findPossible rel siren state cache parameters w = (Ok [], w))
    /\ (forall state cache parameters which w w1,
          Utils.getSiren state w = (Ok siren, w1) ->
          followEach rel parameters state cache w = (Ok [], w1)
          /\ follow rel parameters which state cache w
             = (Throw (Error ("Cannot follow relation '" +:+ rel
                              +:+ "', no links with that relation")), w1)).
Proof.
  intros rel siren Hno.
  assert (forall state cache parameters w,
             findPossible rel siren state cache parameters w = (Ok [], w))
    as Hfind.
  { intros. by rewrite findPossible_candidates, (no_match_targets _ _ Hno). }
  split; [done|].
  intros state cache parameters which w w1 Es.
  assert (followEach rel parameters state cache w = (Ok [], w1)) as Ee.
  { unfold followEach. by rewrite bind_run, Es, Hfind. }
  split; [done|]. by rewrite follow_followEach_run, Ee.
Qed.

Lemma candidate_inv state cache parameters href w s w' :
  candidate state cache parameters href w = (Ok s, w') ->
  w' = w /\ config s = config state
  /\ exists u, rebase state href = Ok u
               /\ locate u parameters = Ok (cur s)
               /\ value s = caches w cache !! u.
Proof.
  unfold candidate, NavState_new. run.
  destruct (rebase state href) as [u|e]; [|done]. simpl.
  destruct (locate u parameters) as [u'|e] eqn:El; [|done]. simpl.
  intros [= <- <-]. repeat split. by exists u.
Qed.

Lemma findPossible_inv :
  forall rel siren state cache parameters w possible w',
    findPossible rel siren state cache parameters w = (Ok possible, w') ->
    length possible = length (targets rel siren)
    /\ Forall (fun s => config s = config state) possible
    /\ Forall2 (fun href s =>
                  exists u, rebase state href = Ok u
                            /\ locate u parameters = Ok (cur s)
                            /\ value s = caches w cache !! u)
         (targets rel siren) possible.
Proof.
  intros rel siren state cache parameters w possible w' E.
  rewrite findPossible_candidates in E.
  apply candidates_Forall2 in E.
  induction E as [|href s hrefs possible Ec _ IH].
  - repeat split; constructor.
  - destruct IH as (Hlen & Hcfg & Hall).
    apply candidate_inv in Ec as (_ & Hc & Hu).
    repeat split; [simpl; by rewrite Hlen | by constructor | by constructor].
Qed.

(** X3. The candidates are as many as the matching URLs of the document,
    and each of them holds the configuration object of the input state
    itself (a shared reference, not a copy), sits at the URL that the
    constructor makes of the rebased URL and the parameters, and carries
    the cache's entry for the rebased URL. *)
Theorem findPossible_candidates_share_config :
  forall rel siren state cache parameters w possible w',
    findPossible rel siren state cache parameters w = (Ok possible, w') ->
    length possible = length (targets rel siren)
    /\ Forall (fun s => config s = config state) possible
    /\ Forall2 (fun href s =>
                  exists u, rebase state href = Ok u
                            /\ locate u parameters = Ok (cur s)
                            /\ value s = caches w cache !! u)
         (targets rel siren) possible.
Proof. apply findPossible_inv. Qed.


Lemma same_config_same_headers {E} (w : World E) s s0 :
  config s = config s0 ->
  headers_of w s = headers_of w s0
  /\ rest_of w s = rest_of w s0
  /\ (state_ok w s0 -> state_ok w s).
Proof.
  intros Ec. unfold headers_of, rest_of, state_ok. by rewrite Ec.
Qed.

Lemma getSiren_preserves state w r w' :
  transport_preserves ->
  Utils.getSiren state w = (r, w') -> objects_kept w w'.
Proof.
  intros Ht. unfold Utils.getSiren. rewrite bind_run.
  destruct (axios_get (cur state) (config state) w) as [[resp|e] w1] eqn:Ea;
    intros [= _ <-]; by eapply Ht.
Qed.

Lemma followEach_inv rel parameters state cache w possible w' :
  followEach rel parameters state cache w = (Ok possible, w') ->
  (exists siren, Utils.getSiren state w = (Ok siren, w'))
  /\ Forall (fun s => config s = config state) possible.
Proof.
  unfold followEach. rewrite bind_run.
  destruct (Utils.getSiren state w) as [[siren|e] w1] eqn:Es; [|done].
  intros E.
  pose proof (findPossible_world rel siren state cache parameters w1) as Hw.
  rewrite E in Hw. simpl in Hw. subst w'.
  split; [by exists siren|].
  by apply (findPossible_inv _ _ _ _ _ _ _ _ E).
Qed.

Lemma followEach_keeps_headers rel parameters state cache w possible w' :
  transport_preserves ->
  state_ok w state ->
  followEach rel parameters state cache w = (Ok possible, w') ->
  objects_kept w w'
  /\ Forall (fun s => state_ok w' s
                      /\ headers_of w' s = headers_of w state
                      /\ rest_of w' s = rest_of w state) possible.
Proof.
  intros Ht Hok E.
  destruct (followEach_inv _ _ _ _ _ _ _ E) as ((siren & Es) & Hcfg).
  pose proof (getSiren_preserves _ _ _ _ Ht Es) as Hpres.
  destruct (objects_kept_state _ _ _ Hpres Hok) as (Hok' & Ehs & Erest).
  split; [done|].
  eapply Forall_impl; [exact Hcfg|]. intros s Hs. simpl in Hs.
  destruct (same_config_same_headers w' s state Hs) as (E1 & E2 & E3).
  by rewrite E1, E2, Ehs, Erest; auto.
Qed.

(** X9. Headers travel with the navigation: when the transport does not
    touch the configuration objects and header objects of the process,
    every state that [followEach] returns shows the header mapping and
    the other configuration fields of the state it was followed from; so
    a header set by a [header] step (on a key other than "__proto__") is
    still set on the state that a later [follow] returns. *)
Theorem headers_survive_follow :
  forall state cache (w : World Ext),
    transport_preserves ->
    state_ok w state ->
    (forall rel parameters possible w',
        followEach rel parameters state cache w = (Ok possible, w') ->
        Forall (fun s => state_ok w' s
                         /\ headers_of w' s = headers_of w state
                         /\ rest_of w' s = rest_of w state) possible)
    /\ (positioned state ->
        forall key val rel parameters s2 w2,
          key <> "__proto__" ->
          reduce (ret state) [header key val; follow rel parameters None]
            cache w = (Ok s2, w2) ->
          headers_of w2 s2 = <[key := val]> (headers_of w state)).
Proof.
  intros state cache w Ht Hok. split.
  - intros rel parameters possible w' E.
    by apply (followEach_keeps_headers _ _ _ _ _ _ _ Ht Hok E).
  - intros Hpos key val rel parameters s2 w2 Hkey E.
    destruct (header_run key val state cache w _ Hok Hpos)
      as (s1 & w1 & E1 & _ & _ & Hre1).
    rewrite (assign_ne _ _ _ Hkey) in Hre1.
    destruct (rebuilt_facts _ _ _ _ _ Hok Hre1) as (Hok1 & Ehs1 & _).
    rewrite reduce_two, bind_run, E1, follow_followEach_run in E.
    destruct (followEach rel parameters s1 cache w1)
      as [[possible|e] w'] eqn:Ee; [|done].
    destruct (followEach_keeps_headers _ _ _ _ _ _ _ Ht Hok1 Ee)
      as (_ & Hall).
    destruct possible as [|s [|s' more]]; try done.
    injection E as -> ->.
    apply Forall_cons in Hall as ((_ & Ehs & _) & _).
    by rewrite Ehs, Ehs1.
Qed.

Lemma followEach_world rel parameters state cache w :
  snd (followEach rel parameters state cache w)
  = snd (Utils.getSiren state w).
Proof.
  unfold followEach. rewrite bind_run.
  destruct (Utils.getSiren state w) as [[siren|e] w1]; [|done].
  apply findPossible_world.
Qed.

Lemma followLocation_run state cache w resp w1 :
  getRequest state w = (Ok resp, w1) ->
  followLocation state cache w
  = match truthy (js_or (header_lookup (resp_headers resp) "Location")
                        (header_lookup (resp_headers resp) "location")) with
    | Some location => candidate state cache None location w1
    | None =>
        (Throw (Error ("No 'Location' header found in '"
                       +:+ join ", " (Object_keys (resp_headers resp))
                       +:+ "'")), w1)
    end.
Proof.
  intros E. unfold followLocation. rewrite bind_run, E.
  by destruct (truthy _).
Qed.

(** X10. The follow steps write nothing: [followEach], [follow] without
    a disambiguator and [followLocation] leave the world exactly as the
    transport request left it. They read the cache and never write it,
    and they create no configuration object. *)
Theorem following_leaves_world :
  forall rel parameters state cache w,
    snd (followEach rel parameters state cache w)
    = snd (Utils.getSiren state w)
    /\ snd (follow rel parameters None state cache w)
       = snd (Utils.getSiren state w)
    /\ snd (followLocation state cache w) = snd (getRequest state w).
Proof.
  intros rel parameters state cache w. split; [|split].
  - apply followEach_world.
  - rewrite <- (followEach_world rel parameters state cache w).
    rewrite follow_followEach_run.
    destruct (followEach rel parameters state cache w)
      as [[possible|e] w']; [|done].
    by destruct possible as [|s [|s' more]].
  - destruct (getRequest state w) as [[resp|e] w1] eqn:E.
    + rewrite (followLocation_run _ _ _ _ _ E).
      destruct (truthy _) as [location|]; [|done].
      simpl. apply candidate_world.
    + unfold followLocation. by rewrite bind_run, E.
Qed.

Lemma header_lookup_key headers key v :
  header_lookup headers key = Some v -> In key (Object_keys headers).
Proof.
  induction headers as [|[k v'] rest IH]; simpl; [done|].
  destruct (String.eqb k key) eqn:E.
  - apply String.eqb_eq in E. by left.
  - intros Hl. right. by apply IH.
Qed.

(** X11. How [followLocation] reads the two keys. A non-empty value
    under "Location" is used whatever "location" holds, and the state is
    built exactly as the resolver builds a candidate for that URL. An
    empty string under "Location" counts as no header: the value under
    "location" is used if there is one, and otherwise the step throws
    the missing-header error, whose message then lists "Location" among
    the keys that are present. *)
Theorem followLocation_key_precedence :
  forall state cache w resp w1,
    getRequest state w = (Ok resp, w1) ->
    (forall c l,
        header_lookup (resp_headers resp) "Location" = Some (String c l) ->
        followLocation state cache w
        = candidate state cache None (String c l) w1)
    /\ (header_lookup (resp_headers resp) "Location" = Some EmptyString ->
        (forall l,
            truthy (header_lookup (resp_headers resp) "location") = Some l ->
            followLocation state cache w = candidate state cache None l w1)
        /\ (truthy (header_lookup (resp_headers resp) "location") = None ->
            followLocation state cache w
            = (Throw (Error ("No 'Location' header found in '"
                             +:+ join ", " (Object_keys (resp_headers resp))
                             +:+ "'")), w1)
            /\ In "Location" (Object_keys (resp_headers resp)))).
Proof.
  intros state cache w resp w1 E.
  rewrite (followLocation_run _ _ _ _ _ E), truthy_js_or.
  split; [|intros E0; split].
  - intros c l ->. done.
  - intros l El. rewrite E0. simpl. by rewrite El.
  - intros El. rewrite E0. simpl. rewrite El. split; [done|].
    by eapply header_lookup_key.
Qed.
End MoreFollowing.

(** ** Pipelines of header steps *)

Section MoreHeaderSteps.
Context `{Platform}.
Import Steps.

Lemma header_rewrites key val cache :
  rewrites_headers (fun _ => True) (header key val) cache (assign key val).
Proof.
  split; [done|]. intros state w Hok Hpos _.
  destruct (header_run key val state cache w _ Hok Hpos)
    as (s' & w' & E & Hcur & Hval & Hre).
  by exists s', w'.
Qed.

Lemma accept_rewrites ctype cache :
  rewrites_headers can_ask (accept ctype) cache (accumulate ctype).
Proof.
  split.
  - intros m Hm. unfold can_ask, accumulate. by rewrite lookup_insert_ne.
  - intros state w Hok Hpos Hask.
    destruct (accept_run ctype state cache w _ Hok Hpos Hask)
      as (s' & w' & E & Hcur & Hval & Hre).
    by exists s', w'.
Qed.

Lemma preserved_refl {E} (w : World E) : preserved w w.
Proof. by repeat split. Qed.

Lemma preserved_trans {E} (w1 w2 w3 : World E) :
  preserved w1 w2 -> preserved w2 w3 -> preserved w1 w3.
Proof.
  intros (A1 & B1 & C1 & D1) (A2 & B2 & C2 & D2).
  repeat split.
  - by etrans.
  - by etrans.
  - by rewrite C2.
  - by rewrite D2.
Qed.

(** A pipeline of steps that rewrite the headers rewrites them in turn. *)
Lemma thread_rewrites Inv cache steps fs :
  Forall2 (fun step f => rewrites_headers Inv step cache f) steps fs ->
  forall state (w : World Ext),
    state_ok w state ->
    positioned state ->
    Inv (headers_of w state) ->
    exists s' w',
      thread state steps cache w = (Ok s', w')
      /\ cur s' = cur state
      /\ state_ok w' s'
      /\ headers_of w' s' = fold_left (fun m f => f m) fs (headers_of w state)
      /\ rest_of w' s' = rest_of w state
      /\ preserved w w'
      /\ headers_of w' state = headers_of w state.
Proof.
  induction 1 as [|step f steps fs [Hinv Hstep] _ IH];
    intros state w Hok Hpos HI.
  - exists state, w. do 5 (split; [done|]).
    split; [apply preserved_refl | done].
  - destruct (Hstep state w Hok Hpos HI)
      as (s1 & w1 & E1 & Hcur1 & _ & Hre1).
    destruct (rebuilt_facts _ _ _ _ _ Hok Hre1)
      as (Hok1 & Ehs1 & Erest1 & Hpres1 & Hok' & Ehs' & _).
    assert (positioned s1) as Hpos1.
    { unfold positioned in *. by rewrite Hcur1. }
    assert (Inv (headers_of w1 s1)) as HI1.
    { rewrite Ehs1. by apply Hinv. }
    destruct (IH s1 w1 Hok1 Hpos1 HI1)
      as (s2 & w2 & E2 & Hcur2 & Hok2 & Ehs2 & Erest2 & Hpres2 & _).
    destruct (preserved_state _ _ _ Hpres2 Hok') as (_ & Ehs'' & _).
    exists s2, w2. simpl. rewrite bind_run, E1.
    split; [done|]. split; [by rewrite Hcur2|]. split; [done|].
    split; [by rewrite Ehs2, Ehs1|]. split; [by rewrite Erest2|].
    split; [by eapply preserved_trans|]. by rewrite Ehs''.
Qed.

Lemma reduce_rewrites Inv cache steps fs state (w : World Ext) :
  Forall2 (fun step f => rewrites_headers Inv step cache f) steps fs ->
  state_ok w state ->
  positioned state ->
  Inv (headers_of w state) ->
  exists s' w',
    reduce (ret state) steps cache w = (Ok s', w')
    /\ cur s' = cur state
    /\ state_ok w' s'
    /\ headers_of w' s' = fold_left (fun m f => f m) fs (headers_of w state)
    /\ rest_of w' s' = rest_of w state
    /\ preserved w w'
    /\ headers_of w' state = headers_of w state.
Proof.
  intros Hall Hok Hpos HI.
  destruct (thread_rewrites Inv cache steps fs Hall state w Hok Hpos HI)
    as (s' & w' & E & Hrest).
  exists s', w'. split; [|done].
  by rewrite reduce_thread, bind_ret_l.
Qed.



Lemma join_cons sep x (l : list string) :
  l <> [] -> join sep (x :: l) = x +:+ sep +:+ join sep l.
Proof. by destruct l. Qed.

Lemma join_snoc_join sep (xs ys : list string) :
  ys <> [] -> join sep (xs ++ [join sep ys]) = join sep (xs ++ ys).
Proof.
  intros Hys. induction xs as [|x xs IH]; [done|].
  rewrite <- !app_comm_cons.
  rewrite !join_cons, IH; [done| |]; by destruct xs, ys.
Qed.

Lemma fold_accumulate (ts : list string) :
  ts <> [] ->
  forall m : gmap string string,
    fold_left (fun m f => f m) (map accumulate ts) m
    = <["Accept" :=
          join ", " (rev ts ++ match m !! "Accept" with
                               | Some v => [v]
                               | None => []
                               end)]> m.
Proof.
  induction ts as [|t ts IH]; [done|]. intros _ m.
  destruct ts as [|t2 ts].
  - simpl. unfold accumulate. by destruct (m !! "Accept").
  - change (fold_left (fun m f => f m) (map accumulate (t :: t2 :: ts)) m)
      with (fold_left (fun m f => f m) (map accumulate (t2 :: ts))
              (accumulate t m)).
    rewrite IH; [|done]. unfold accumulate.
    rewrite lookup_insert_eq, insert_insert_eq. f_equal.
    change (rev (t :: t2 :: ts)) with (rev (t2 :: ts) ++ [t]).
    rewrite <- app_assoc.
    rewrite <- (join_snoc_join ", " (rev (t2 :: ts))
                  ([t] ++ match m !! "Accept" with
                          | Some v => [v]
                          | None => []
                          end)); [|done].
    by destruct (m !! "Accept").
Qed.

(** X13. Repeated [accept] steps build a preference list. On a state
    whose header object has no own property named "hasOwnProperty",
    after the steps [accept t1], ..., [accept tn] (n > 0) the Accept
    header is "tn, ..., t1", followed by ", " and the Accept value of
    the input state when it had one; the other headers, the other
    configuration fields and the current URL are the input's, and every
    object that existed is as it was. *)
Theorem accept_pipeline :
  forall (ts : list string) state cache (w : World Ext),
    ts <> [] ->
    state_ok w state ->
    positioned state ->
    headers_of w state !! "hasOwnProperty" = None ->
    exists s' w',
      reduce (ret state) (map accept ts) cache w = (Ok s', w')
      /\ headers_of w' s'
         = <["Accept" :=
               join ", " (rev ts ++ match headers_of w state !! "Accept" with
                                    | Some v => [v]
                                    | None => []
                                    end)]> (headers_of w state)
      /\ rest_of w' s' = rest_of w state
      /\ cur s' = cur state
      /\ preserved w w'
      /\ headers_of w' state = headers_of w state.
Proof.
  intros ts state cache w Hts Hok Hpos Hask.
  destruct (reduce_rewrites can_ask cache (map accept ts)
              (map accumulate ts) state w)
    as (s' & w' & E & Hcur & _ & Ehs & Erest & Hpres & Ehs'); try done.
  { clear Hts. induction ts as [|t ts IH]; simpl; constructor; [|done].
    apply accept_rewrites. }
  exists s', w'. rewrite (fold_accumulate ts Hts) in Ehs.
  by repeat (split; [done|]).
Qed.

Lemma assign_commute k1 v1 k2 v2 (m : gmap string string) :
  k1 <> k2 ->
  assign k2 v2 (assign k1 v1 m) = assign k1 v1 (assign k2 v2 m).
Proof.
  intros Hne. unfold assign.
  destruct (String.eqb k1 "__proto__"), (String.eqb k2 "__proto__");
    try done.
  by apply insert_insert_ne.
Qed.

(** X14. Header steps on different keys commute: [header k1 v1] then
    [header k2 v2] gives the same header mapping as the other order. So
    [auth] and [contentType] can come in either order, and the state
    then has "Authorization" bound to the scheme, a space and the token,
    and "Content-Type" bound to the content type. *)
Theorem header_steps_commute :
  forall state cache (w : World Ext),
    state_ok w state ->
    positioned state ->
    (forall k1 v1 k2 v2,
        k1 <> k2 ->
        exists sa wa sb wb,
          reduce (ret state) [header k1 v1; header k2 v2] cache w = (Ok sa, wa)
          /\ reduce (ret state) [header k2 v2; header k1 v1] cache w
             = (Ok sb, wb)
          /\ headers_of wa sa = headers_of wb sb)
    /\ (forall scheme token ctype,
          exists sa wa sb wb,
            reduce (ret state) [auth scheme token; contentType ctype] cache w
            = (Ok sa, wa)
            /\ reduce (ret state) [contentType ctype; auth scheme token]
                 cache w = (Ok sb, wb)
            /\ headers_of wa sa = headers_of wb sb
            /\ headers_of wa sa !! "Authorization"
               = Some (scheme +:+ " " +:+ token)
            /\ headers_of wa sa !! "Content-Type" = Some ctype).
Proof.
  intros state cache w Hok Hpos.
  assert (forall k1 v1 k2 v2,
             exists sa wa,
               reduce (ret state) [header k1 v1; header k2 v2] cache w
               = (Ok sa, wa)
               /\ headers_of wa sa
                  = assign k2 v2 (assign k1 v1 (headers_of w state))) as Htwo.
  { intros k1 v1 k2 v2.
    destruct (reduce_rewrites (fun _ => True) cache
                [header k1 v1; header k2 v2]
                [assign k1 v1; assign k2 v2] state w)
      as (s' & w' & E & _ & _ & Ehs & _); try done.
    { repeat constructor; apply header_rewrites. }
    by exists s', w'. }
  split.
  - intros k1 v1 k2 v2 Hne.
    destruct (Htwo k1 v1 k2 v2) as (sa & wa & Ea & Ha).
    destruct (Htwo k2 v2 k1 v1) as (sb & wb & Eb & Hb).
    exists sa, wa, sb, wb. repeat split; try done.
    rewrite Ha, Hb. by apply assign_commute.
  - intros scheme token ctype. unfold auth, contentType.
    destruct (Htwo "Authorization" (scheme +:+ " " +:+ token)
                "Content-Type" ctype) as (sa & wa & Ea & Ha).
    destruct (Htwo "Content-Type" ctype
                "Authorization" (scheme +:+ " " +:+ token))
      as (sb & wb & Eb & Hb).
    exists sa, wa, sb, wb. repeat split; try done.
    + rewrite Ha, Hb. by apply assign_commute.
    + rewrite Ha. unfold assign. simpl.
      rewrite lookup_insert_ne; [|done]. apply lookup_insert_eq.
    + rewrite Ha. unfold assign. simpl. apply lookup_insert_eq.
Qed.

Lemma preserved_headers_ref {E} (w w' : World E) state :
  preserved w w' ->
  state_ok w state ->
  headers_ref w' state = headers_ref w state.
Proof.
  intros (Hcsub & _) (o & Ec & _). unfold headers_ref.
  by rewrite (lookup_weaken _ _ _ _ Ec Hcsub), Ec.
Qed.

(** X15. [accept] works on a copy as [header] does, although it first
    reads the Accept value through the header object that the copied
    configuration shares with the input. On a state whose header object
    has no own property named "hasOwnProperty", the state it returns
    holds a new configuration object and a new header object, every
    object that existed keeps its content, the other headers, the other
    configuration fields and the current URL are the input's, and the
    response is the cache's entry for the current URL. *)
Theorem accept_on_a_copy :
  forall ctype state cache (w : World Ext),
    state_ok w state ->
    positioned state ->
    headers_of w state !! "hasOwnProperty" = None ->
    exists s' w',
      accept ctype state cache w = (Ok s', w')
      /\ (forall k, k <> "Accept" ->
            headers_of w' s' !! k = headers_of w state !! k)
      /\ rest_of w' s' = rest_of w state
      /\ cur s' = cur state
      /\ value s' = caches w cache !! cur state
      /\ preserved w w'
      /\ headers_of w' state = headers_of w state
      /\ (config s' ∉ dom (configs w))
      /\ exists h', headers_ref w' s' = Some h'
                    /\ h' ∉ dom (headerObjs w).
Proof.
  intros ctype state cache w Hok Hpos Hask.
  destruct (accept_run ctype state cache w _ Hok Hpos Hask)
    as (s' & w' & E & Hcur & Hval & Hre).
  pose proof Hre as (Hfresh & _).
  destruct (rebuilt_facts _ _ _ _ _ Hok Hre)
    as (_ & Ehs & Erest & Hpres & _ & Ehs' & _ & Href).
  exists s', w'. split; [done|]. split.
  { intros k Hk. rewrite Ehs. by apply lookup_insert_ne. }
  by repeat (split; [done|]).
Qed.

(** X16. A configuration without header object: [header key val] gives
    a state whose header mapping is exactly [key] bound to [val] (and
    is empty when [key] is "__proto__", which binds nothing), and
    [accept ctype] one whose mapping is exactly "Accept" bound to
    [ctype]; the configuration of the input state still has no header
    object afterwards (the empty object that the step creates first is
    put on the copy). *)
Theorem header_steps_without_header_object :
  forall state cache (w : World Ext),
    state_ok w state ->
    positioned state ->
    headers_ref w state = None ->
    (forall key val,
        exists s' w',
          header key val state cache w = (Ok s', w')
          /\ headers_of w' s'
             = (if String.eqb key "__proto__" then ∅ else {[ key := val ]})
          /\ headers_ref w' state = None)
    /\ (forall ctype,
          exists s' w',
            accept ctype state cache w = (Ok s', w')
            /\ headers_of w' s' = {[ "Accept" := ctype ]}
            /\ headers_ref w' state = None).
Proof.
  intros state cache w Hok Hpos Hnone.
  assert (headers_of w state = ∅) as Eempty.
  { unfold headers_of, headers_ref in *.
    destruct (configs w !! config state) as [o|]; [|done].
    simpl in Hnone. by rewrite Hnone. }
  split.
  - intros key val.
    destruct (header_run key val state cache w _ Hok Hpos)
      as (s' & w' & E & _ & _ & Hre).
    destruct (rebuilt_facts _ _ _ _ _ Hok Hre)
      as (_ & Ehs & _ & Hpres & _).
    exists s', w'. split; [done|]. split.
    + rewrite Ehs, Eempty. unfold assign.
      destruct (String.eqb key "__proto__"); [done|].
      by rewrite insert_empty.
    + by rewrite (preserved_headers_ref _ _ _ Hpres Hok).
  - intros ctype.
    assert (headers_of w state !! "hasOwnProperty" = None) as Hask.
    { by rewrite Eempty. }
    destruct (accept_run ctype state cache w _ Hok Hpos Hask)
      as (s' & w' & E & _ & _ & Hre).
    destruct (rebuilt_facts _ _ _ _ _ Hok Hre)
      as (_ & Ehs & _ & Hpres & _).
    exists s', w'. split; [done|]. split.
    + rewrite Ehs, Eempty, lookup_empty. by rewrite insert_empty.
    + by rewrite (preserved_headers_ref _ _ _ Hpres Hok).
Qed.
End MoreHeaderSteps.

(** ** The utilities: normalization with parameters, the body encoder *)

Section MoreUtils.
Context `{UriJs}.
Import Utils.

(** X17. Parameters come last in [normalizeUrl]: normalizing with
    parameters is normalizing without them and then expanding the
    result as a template, so a relative URL fails with the same error
    whether parameters are given or not, and expansion cannot make up
    for it. An empty base is no base. *)
Theorem normalizeUrl_parameters_last :
  forall href base p,
    normalizeUrl href base (Some p)
    = obind (normalizeUrl href base None) (fun url => expand url p)
    /\ normalizeUrl href (Some EmptyString) (Some p)
       = normalizeUrl href None (Some p)
    /\ normalizeUrl href (Some EmptyString) None
       = normalizeUrl href None None.
Proof.
  intros href base p. unfold normalizeUrl.
  split; [|done].
  destruct (resolved href base) as [url|e]; [|done]. simpl.
  by destruct (is_relative url).
Qed.
End MoreUtils.

Section MoreFormulateData.
Variables (JsObject Num : Type).
Variable is_zero_or_NaN : Num -> bool.
Variable query_string : JsObject -> string.

Abbreviation formulate :=
  (formulateData JsObject Num is_zero_or_NaN query_string).

Lemma formulateData_run action body :
  formulate action body
  = if match truthy (action_type action) with
       | Some t => negb (String.eqb t "application/x-www-form-urlencoded")
       | None => false
       end
    then body
    else match body with
         | VObject o => VString (query_string o)
         | _ => body
         end.
Proof.
  unfold formulateData. cbn zeta.
  destruct (match truthy (action_type action) with
            | Some t => negb (String.eqb t "application/x-www-form-urlencoded")
            | None => false
            end); [done|].
  destruct body as [| |b|n|s| |o]; simpl; try done.
  - by destruct (negb b).
  - by destruct (is_zero_or_NaN n).
  - by destruct s.
Qed.

(** X18. [formulateData] encodes at most once: its result, given back to
    it with the same action, comes out unchanged. It changes the body
    only when the body is an object and the action's type is absent,
    empty or "application/x-www-form-urlencoded", and the result is
    then the query string of the object; an empty type counts as an
    absent one. *)
Theorem formulateData_idempotent :
  forall action body,
    formulate action (formulate action body) = formulate action body
    /\ (formulate action body <> body ->
        exists o,
          body = VObject o
          /\ formulate action body = VString (query_string o)
          /\ (truthy (action_type action) = None
              \/ action_type action
                 = Some "application/x-www-form-urlencoded"))
    /\ (action_type action = Some EmptyString ->
        formulate action body
        = formulate {| action_type := None |} body).
Proof.
  intros [type] body. rewrite !formulateData_run. cbn [action_type].
  split; [|split].
  - destruct (truthy type) as [t|]; [destruct (negb _); [done|]|];
      by destruct body.
  - destruct (truthy type) as [t|] eqn:Et.
    + destruct (String.eqb t "application/x-www-form-urlencoded") eqn:Eq;
        [|done].
      apply String.eqb_eq in Eq. subst t. cbn [negb].
      destruct body as [| |b|n|s| |o]; try done.
      intros _. exists o. repeat split. right.
      destruct type as [[|c s]|]; simpl in Et; congruence.
    + destruct body as [| |b|n|s| |o]; try done.
      intros _. exists o. auto.
  - by intros ->.
Qed.
End MoreFormulateData.

(** ** [NavResponse] *)

Section MoreResponse.
Variables (W SirenNav State Root Cfg : Type).
Variable root : State -> Root.
Variable config : State -> Cfg.
Variable NavState_new :
  string -> Root -> Cfg -> option ResponseData -> M W State.
Variable getOr : Cache -> string -> M W (option ResponseData).

Abbreviation location_step :=
  (Response.followLocation_step W SirenNav State Root Cfg root config
     NavState_new getOr).

(** X19. A [NavResponse] made from a value gives the value back as its
    document, and has no headers: the step that its [followLocation]
    registers always throws the missing-header error with an empty list
    of keys, without reading the cache or building a state. A response
    whose promise was rejected passes the rejection on, from [asSiren]
    and from the step alike. *)
Theorem NavResponse_fromValue :
  forall (nav : SirenNav) (w : W),
    (forall doc,
        Response.asSiren W SirenNav (Response.fromValue SirenNav doc nav) w
        = (Ok doc, w)
        /\ forall state cache debug,
             location_step (Response.fromValue SirenNav doc nav)
               state cache debug w
             = (Throw (Error "No 'Location' header found in ''"), w))
    /\ (forall e,
          Response.asSiren W SirenNav (Response.create SirenNav (Throw e) nav) w
          = (Throw e, w)
          /\ forall state cache debug,
               location_step (Response.create SirenNav (Throw e) nav)
                 state cache debug w
               = (Throw e, w)).
Proof. intros nav w. split; intros; split; reflexivity. Qed.
End MoreResponse.

(** ** The further properties at work on the concrete platform *)

Section MoreExamples.
Import Toy Samples Steps.

Abbreviation followEach' := (@followEach uri platform).
Abbreviation reduce' := (@reduce uri platform).
Abbreviation reduceEach' := (@reduceEach uri platform).

(** The transport of the concrete platform only reads its table. *)
Lemma toy_transport_preserves : @transport_preserves uri platform.
Proof.
  intros url c w r w' E. cbv [axios_get platform serve] in E.
  match type of E with
  | match ?x with _ => _ end = _ => destruct x
  end; injection E as _ <-; by split.
Defined.

Lemma toy_state0_ok servers : state_ok (world0 servers) state0.
Proof.
  exists config0. split; [reflexivity|]. intros h E. discriminate E.
Defined.

(** Witness of X2: the relation "next" occurs nowhere in the document. *)
Lemma no_match_gives_no_candidate_witness :
  followEach' "next" None state0 0 (world0 servers_three)
  = (Ok [], world0 servers_three)
  /\ @follow uri platform "next" None None state0 0 (world0 servers_three)
     = (Throw (Error "Cannot follow relation 'next', no links with that relation"),
        world0 servers_three).
Proof.
  apply (proj2 (@no_match_gives_no_candidate uri platform
                  "next" doc_repr_then_link eq_refl)
           state0 0 None None (world0 servers_three) (world0 servers_three)).
  reflexivity.
Defined.

(** Witness of X3: the three candidates for "item". *)
Lemma findPossible_candidates_share_config_witness :
  Forall (fun s => config s = config state0)
    [at_ "http://api/a"; at_ "http://api/b"; at_ "http://api/c"].
Proof.
  apply (@findPossible_candidates_share_config uri platform
           "item" doc_repr_then_link state0 0 None (world0 ∅) _ (world0 ∅)).
  reflexivity.
Defined.


(** Witness of X6: the first wave finds nothing to follow. *)
Lemma reduceEach_empty_set_witness :
  reduceEach' (ret [state0])
    ([followEach' "next" None] ++ [stay; fail_at "http://api/"]) 0
    (world0 servers_three)
  = (Ok [], world0 servers_three).
Proof.
  apply (proj2 (@reduceEach_empty_set uri platform
                  [stay; fail_at "http://api/"] 0)).
  reflexivity.
Defined.

(** Witness of X7: the step fails on the second of three states. *)
Lemma reduceEach_failure_aborts_witness :
  reduceEach' (ret ([state0] ++ at_ "http://api/x" :: [state1]))
    [fail_at "http://api/x"; stay] 0 (world0 ∅)
  = (Throw (Error "refused"), world0 ∅).
Proof.
  apply (proj2 (@reduceEach_failure_aborts uri platform
                  (fail_at "http://api/x") 0 [state0] (at_ "http://api/x")
                  [state1] [stay] [state0] (world0 ∅) (world0 ∅)
                  (Error "refused") (world0 ∅) eq_refl eq_refl)).
Defined.

(** Witness of X9: a header, then a follow. *)
Lemma headers_survive_follow_witness :
  exists s2 w2,
    reduce' (ret state0)
      [@header uri platform "Accept-Language" "en";
       @follow uri platform "item" None None] 0 (world0 servers_one)
    = (Ok s2, w2)
    /\ headers_of w2 s2
       = <["Accept-Language" := "en"]>
           (headers_of (world0 servers_one) state0).
Proof.
  eexists _, _. split.
  - vm_compute. reflexivity.
  - apply (proj2 (@headers_survive_follow uri platform state0 0
                    (world0 servers_one) toy_transport_preserves
                    (toy_state0_ok servers_one))
             eq_refl "Accept-Language" "en" "item" None _ _
             ltac:(discriminate)).
    vm_compute. reflexivity.
Defined.

(** Witness of X11: an empty Location header. *)
Lemma followLocation_key_precedence_witness :
  @followLocation uri platform state0 0 (world0 servers_empty_location)
  = (Throw (Error "No 'Location' header found in 'Location, etag'"),
     world0 servers_empty_location)
  /\ In "Location" ["Location"; "etag"].
Proof.
  apply (proj2 (proj2 (@followLocation_key_precedence uri platform
                         state0 0 (world0 servers_empty_location)
                         _ _ eq_refl)
                  eq_refl)).
  reflexivity.
Defined.


(** Witness of X13: three content types. *)
Lemma accept_pipeline_witness :
  exists s' w',
    reduce' (ret state0)
      (map (@accept uri platform)
         ["application/json"; "application/xml"; "text/html"]) 0 (world0 ∅)
    = (Ok s', w')
    /\ headers_of w' s' !! "Accept"
       = Some "text/html, application/xml, application/json".
Proof.
  destruct (@accept_pipeline uri platform
              ["application/json"; "application/xml"; "text/html"]
              state0 0 (world0 ∅)
              ltac:(discriminate) (toy_state0_ok ∅) eq_refl eq_refl)
    as (s' & w' & E & Ehs & _).
  exists s', w'. split; [exact E|].
  rewrite Ehs. apply lookup_insert_eq.
Defined.

(** Witness of X14. *)
Lemma header_steps_commute_witness :
  exists sa wa sb wb,
    reduce' (ret state0)
      [@auth uri platform "Bearer" "abc";
       @contentType uri platform "application/json"] 0 (world0 ∅)
    = (Ok sa, wa)
    /\ reduce' (ret state0)
         [@contentType uri platform "application/json";
          @auth uri platform "Bearer" "abc"] 0 (world0 ∅)
       = (Ok sb, wb)
    /\ headers_of wa sa = headers_of wb sb
    /\ headers_of wa sa !! "Authorization" = Some "Bearer abc"
    /\ headers_of wa sa !! "Content-Type" = Some "application/json".
Proof.
  apply (proj2 (@header_steps_commute uri platform state0 0 (world0 ∅)
                  (toy_state0_ok ∅) eq_refl)
           "Bearer" "abc" "application/json").
Defined.

(** Witness of X15: the cache holds a response for the URL. *)
Lemma accept_on_a_copy_witness :
  exists s' w',
    @accept uri platform "text/html" state0 0 world_cached = (Ok s', w')
    /\ value s' = Some response0
    /\ preserved world_cached w'.
Proof.
  destruct (@accept_on_a_copy uri platform "text/html" state0 0 world_cached)
    as (s' & w' & E & _ & _ & _ & Hval & Hpres & _).
  - exists config0. split; [reflexivity|]. intros h Eh. discriminate Eh.
  - reflexivity.
  - reflexivity.
  - exists s', w'. split; [exact E|]. split; [exact Hval | exact Hpres].
Defined.

(** Witness of X16. *)
Lemma header_steps_without_header_object_witness :
  exists s' w',
    @header uri platform "Accept-Language" "en" state0 0 (world0 ∅)
    = (Ok s', w')
    /\ headers_of w' s' = {[ "Accept-Language" := "en" ]}
    /\ headers_ref w' state0 = None.
Proof.
  apply (proj1 (@header_steps_without_header_object uri platform
                  state0 0 (world0 ∅) (toy_state0_ok ∅) eq_refl eq_refl)
           "Accept-Language" "en").
Defined.

(** Witness of X18: an object body and no type. *)
Lemma formulateData_idempotent_witness :
  exists o,
    VObject [("q", "tea"); ("page", "2")] = VObject (Num := nat) o
    /\ formulateData _ nat is_zero encode_fields {| action_type := None |}
         (VObject [("q", "tea"); ("page", "2")])
       = VString "q=tea&page=2".
Proof.
  destruct (proj1 (proj2 (formulateData_idempotent _ nat is_zero encode_fields
                            {| action_type := None |}
                            (VObject [("q", "tea"); ("page", "2")]))))
    as (o & Eo & Er & _).
  - discriminate.
  - exists o. split; [exact Eo|]. injection Eo as <-. exact Er.
Defined.
End MoreExamples.
